(** * MinCPU UART loader: a shallow embedding of [Software/uart_loader.py]

    The upload protocol of the MinCPU boot loader, translated from the Python
    source into a state-and-exception monad over an explicit model of the
    serial line, together with the word-boundary padding that
    [Software/bin2verilog.py] shares with it.

    Bytes are integers ([Z], a well-formed byte lies in [0, 256)); byte
    strings are lists of them.  The pyserial port, the file system and the
    console are external collaborators: they appear as fields of the [world]
    record the monad threads through every call. *)

From Stdlib Require Import ZArith Lia.
From stdpp Require Import base list strings gmap pretty.
From Equations Require Import Equations.

Local Open Scope Z_scope.
Local Open Scope nat_scope.

(** ** Python exceptions *)

Inductive exn :=
| Exception (msg : string)        (* raise Exception("...") *)
| SerialException                 (* serial.SerialException *)
| StructError                     (* struct.error *)
| FileNotFoundError (name : string)
| OSError                         (* open() on a path that cannot be opened *)
| ValueError (msg : string)
| ZeroDivisionError
| AttributeError                  (* attribute access on None *)
| KeyboardInterrupt
| SystemExit (code : Z).

(** [except Exception] catches every exception class that derives from
    [Exception]; [KeyboardInterrupt] and [SystemExit] derive from
    [BaseException] only. *)
Definition is_Exception (e : exn) : bool :=
  match e with
  | KeyboardInterrupt | SystemExit _ => false
  | _ => true
  end.

Definition is_SerialException (e : exn) : bool :=
  match e with SerialException => true | _ => false end.

Definition is_KeyboardInterrupt (e : exn) : bool :=
  match e with KeyboardInterrupt => true | _ => false end.

Inductive result (A : Type) :=
| Ok (a : A)
| Raise (e : exn).
Arguments Ok {A} a.
Arguments Raise {A} e.

(** ** The world: loader object, serial line, files, console *)

(** What the program does to the outside, in program order. *)
Inductive event :=
| EvOpen (port : string) (baud : Z)
| EvWrite (data : list Z)
| EvFlush
| EvRead (size : nat) (got : list Z)
| EvClose
| EvSleep (ms : Z).

(** One constructor per [print] call of the loader. *)
Inductive message :=
| MsgConnected (port : string) (baud : Z)
| MsgConnectError (port : string) (e : exn)
| MsgDisconnected
| MsgSendingMagic
| MsgSendingSize (size : nat)
| MsgSendingAddress (address : Z)
| MsgSendingData (len : nat)
| MsgProgress (progress : nat * nat)
| MsgNewline
| MsgWaiting
| MsgUploadSuccessful
| MsgUploadFailed
| MsgUnexpectedResponse (response : Z)
| MsgErrorWaiting (e : exn)
| MsgLoadedFile (name : string)
| MsgFileSize (size : nat)
| MsgStartingUpload
| MsgFile (name : string)
| MsgSize (size : nat)
| MsgLoadAddress (address : Z)
| MsgProgramUploaded
| MsgShouldBeRunning
| MsgCheckConnections
| MsgUploadError (e : exn)
| MsgTesting
| MsgReceivedResponse (response : list Z)
| MsgNoResponse
| MsgConnectionTestFailed (e : exn)
| MsgTestPassed
| MsgTestFailed
| MsgInterrupted
| MsgUnexpectedError (e : exn)
| MsgHelp.                        (* argparse's help text, on [-h] *)

(** The [serial.Serial] object held in [self.serial_port]. *)
Record Serial := mkSerial {
  is_open : bool;
  ser_timeout : Z;
}.

Record world := mkWorld {
  (* the MinCPUUARTLoader instance *)
  port : string;
  baud_rate : Z;
  timeout : Z;
  serial_port : option Serial;            (* None until connect() succeeds *)
  (* the environment *)
  files : gmap string (list Z);           (* file name -> contents *)
  ports : gset string;                    (* the ports that can be opened *)
  device : list Z -> list Z;              (* bytes received so far -> bytes answered so far *)
  rx_pos : nat;                           (* answered bytes already read *)
  link_faults : list bool;                (* per serial call: does it raise SerialException? *)
  interrupts : list bool;                 (* per blocking call: does Ctrl-C arrive during it? *)
  (* the observations *)
  trace : list event;
  stdout : list message;
}.

Definition set_serial_port (s : option Serial) (w : world) : world :=
  mkWorld (port w) (baud_rate w) (timeout w) s (files w) (ports w) (device w)
          (rx_pos w) (link_faults w) (interrupts w) (trace w) (stdout w).
Definition set_rx_pos (n : nat) (w : world) : world :=
  mkWorld (port w) (baud_rate w) (timeout w) (serial_port w) (files w) (ports w) (device w)
          n (link_faults w) (interrupts w) (trace w) (stdout w).
Definition set_link_faults (l : list bool) (w : world) : world :=
  mkWorld (port w) (baud_rate w) (timeout w) (serial_port w) (files w) (ports w) (device w)
          (rx_pos w) l (interrupts w) (trace w) (stdout w).
Definition set_interrupts (l : list bool) (w : world) : world :=
  mkWorld (port w) (baud_rate w) (timeout w) (serial_port w) (files w) (ports w) (device w)
          (rx_pos w) (link_faults w) l (trace w) (stdout w).
Definition set_trace (t : list event) (w : world) : world :=
  mkWorld (port w) (baud_rate w) (timeout w) (serial_port w) (files w) (ports w) (device w)
          (rx_pos w) (link_faults w) (interrupts w) t (stdout w).
Definition set_stdout (o : list message) (w : world) : world :=
  mkWorld (port w) (baud_rate w) (timeout w) (serial_port w) (files w) (ports w) (device w)
          (rx_pos w) (link_faults w) (interrupts w) (trace w) o.

(** ** The monad: state that survives exceptions *)

Definition M (A : Type) : Type := world -> result A * world.

Definition ret {A} (a : A) : M A := fun w => (Ok a, w).
Definition raise {A} (e : exn) : M A := fun w => (Raise e, w).
Definition bind {A B} (m : M A) (k : A -> M B) : M B :=
  fun w => match m w with
           | (Ok a, w') => k a w'
           | (Raise e, w') => (Raise e, w')
           end.

Notation "x <- m ;; k" := (bind m (fun x => k))
  (at level 100, m at next level, right associativity).
Notation "m ;;; k" := (bind m (fun _ => k))
  (at level 100, right associativity).

(** [try: body except C1 as e: h1 e except C2 as e: h2 e ...]: the first
    clause whose class matches handles the exception; what a handler raises
    is not offered to the clauses after it. *)
Fixpoint handle {A} (clauses : list ((exn -> bool) * (exn -> M A))) (e : exn) : M A :=
  match clauses with
  | [] => raise e
  | (catches, handler) :: rest => if catches e then handler e else handle rest e
  end.

Definition try_except {A} (body : M A) (clauses : list ((exn -> bool) * (exn -> M A))) : M A :=
  fun w => match body w with
           | (Raise e, w') => handle clauses e w'
           | r => r
           end.

(** [try: body finally: cleanup] *)
Definition try_finally {A} (body : M A) (cleanup : M unit) : M A :=
  fun w => match body w with
           | (r, w') => match cleanup w' with
                        | (Ok _, w'') => (r, w'')
                        | (Raise e, w'') => (Raise e, w'')
                        end
           end.

(** [for x in xs: body x] *)
Fixpoint for_each {A} (xs : list A) (body : A -> M unit) : M unit :=
  match xs with
  | [] => ret tt
  | x :: xs' => body x ;;; for_each xs' body
  end.

Definition get {A} (f : world -> A) : M A := fun w => (Ok (f w), w).
Definition modify (f : world -> world) : M unit := fun w => (Ok tt, f w).

Definition emit (e : event) : M unit := modify (fun w => set_trace (trace w ++ [e]) w).
Definition print (m : message) : M unit := modify (fun w => set_stdout (stdout w ++ [m]) w).

(** ** Blocking calls and the serial line *)

(** Every blocking call consumes one entry of the interrupt schedule. *)
Definition blocking : M unit :=
  fun w => match interrupts w with
           | true :: l => (Raise KeyboardInterrupt, set_interrupts l w)
           | false :: l => (Ok tt, set_interrupts l w)
           | [] => (Ok tt, w)
           end.

(** Every call on the open port consumes one entry of the fault schedule. *)
Definition serial_call : M unit :=
  blocking ;;;
  fun w => match link_faults w with
           | true :: l => (Raise SerialException, set_link_faults l w)
           | false :: l => (Ok tt, set_link_faults l w)
           | [] => (Ok tt, w)
           end.

(** [time.sleep(ms / 1000)] *)
Definition sleep (ms : Z) : M unit := blocking ;;; emit (EvSleep ms).

(** The byte strings written to the line, one per [write] call, and all
    bytes written so far. *)
Definition writes (t : list event) : list (list Z) :=
  omap (fun e => match e with EvWrite d => Some d | _ => None end) t.
Definition sent (t : list event) : list Z := concat (writes t).

(** [self.serial_port.write(data)] *)
Definition serial_write (data : list Z) : M unit := serial_call ;;; emit (EvWrite data).

(** [self.serial_port.flush()] *)
Definition serial_flush : M unit := serial_call ;;; emit EvFlush.

(** [self.serial_port.read(size)]: the bytes that arrive before the port's
    timeout expires, at most [size] of them. *)
Definition serial_read (size : nat) : M (list Z) :=
  serial_call ;;;
  w <- get id ;;
  let got := take size (drop (rx_pos w) (device w (sent (trace w)))) in
  modify (set_rx_pos (rx_pos w + length got)) ;;;
  emit (EvRead size got) ;;;
  ret got.

(** ** Pure helpers: struct.pack, slices, range *)

(** The four bytes of a 32-bit word, least significant first. *)
Definition le_bytes (v : Z) : list Z :=
  [Z.land v 255; Z.land (Z.shiftr v 8) 255;
   Z.land (Z.shiftr v 16) 255; Z.land (Z.shiftr v 24) 255].

(** [struct.pack('<I', v)]: [struct.error] outside the unsigned 32-bit range. *)
Definition struct_pack_I (v : Z) : M (list Z) :=
  if ((0 <=? v) && (v <? 2 ^ 32))%Z then ret (le_bytes v) else raise StructError.

(** Reading a little-endian byte string back as a number. *)
Fixpoint le_value (bs : list Z) : Z :=
  match bs with
  | [] => 0
  | b :: rest => b + 256 * le_value rest
  end.

(** [data[i:j]] for [0 <= i <= j] *)
Definition slice (data : list Z) (i j : nat) : list Z := take (j - i) (drop i data).

(** [range(start, stop, step)] for a positive step: the values the loop
    variable takes.  (Python rejects a zero step with [ValueError]; the only
    step in the loader is the constant chunk size.) *)
Equations? py_range (start stop step : nat) : list nat by wf (stop - start) lt :=
  py_range start stop step with decide (0 < step /\ start < stop) := {
    | left _ => start :: py_range (start + step) stop step
    | right _ => [] }.
Proof. lia. Qed.

(** [a / b] on integers is true division: [ZeroDivisionError] when [b] is
    zero, a float otherwise.  Floats are not modelled: the quotient is
    carried as the pair of its operands, and so is the percentage printed
    from it with one decimal ([MsgProgress (sent, total)] stands for
    [print(f"Progress: {sent / total * 100:.1f}%")]). *)
Definition py_truediv (a b : nat) : M (nat * nat) :=
  match b with
  | O => raise ZeroDivisionError
  | S _ => ret (a, b)
  end.

(** Pad to word boundary, the loop [upload_program] and [bin_to_verilog]
    both run on the image they have read:
    [while len(data) % 4 != 0: data += b'\x00'] *)
Equations? pad_to_word_boundary (data : list Z) : list Z
  by wf ((4 - length data mod 4) mod 4) lt :=
  pad_to_word_boundary data with decide (length data mod 4 = 0) := {
    | left _ => data
    | right _ => pad_to_word_boundary (data ++ [0%Z]) }.
Proof.
  clear pad_to_word_boundary.
  repeat match goal with
         | H : context [3 - (Nat.divmod ?a 3 0 3).2] |- _ =>
             change (3 - (Nat.divmod a 3 0 3).2) with (a mod 4) in H
         | |- context [3 - (Nat.divmod ?a 3 0 3).2] =>
             change (3 - (Nat.divmod a 3 0 3).2) with (a mod 4)
         end.
  rewrite length_app; simpl length.
  rewrite (Nat.Div0.add_mod (length data) 1 4).
  pose proof (Nat.mod_upper_bound (length data) 4 ltac:(lia)) as Hlt.
  remember (length data mod 4) as r.
  destruct r as [|[|[|[|r]]]]; simpl; lia.
Qed.

(** ** class MinCPUUARTLoader *)

(** Protocol constants (set once in [__init__], never assigned again). *)
Definition MAGIC_WORD : Z := 0xDEADBEEF.
Definition SUCCESS_CODE : Z := 0xAA.
Definition ERROR_CODE : Z := 0xFF.
Definition DEFAULT_LOAD_ADDR : Z := 0x1000.

(** [MinCPUUARTLoader(port, baud_rate, timeout)] *)
Definition init_loader (p : string) (baud tmo : Z) (w : world) : world :=
  mkWorld p baud tmo None (files w) (ports w) (device w)
          (rx_pos w) (link_faults w) (interrupts w) (trace w) (stdout w).

(** [serial.Serial(port=..., baudrate=..., ..., timeout=...)]: the
    constructor first checks its settings, [ValueError] for a negative baud
    rate or a negative timeout, and then opens the port,
    [SerialException] when that fails.  [ports] holds the ports that open
    at the rate asked for; a rate the driver refuses counts as a port that
    does not open. *)
Definition serial_Serial (p : string) (baud tmo : Z) : M Serial :=
  if (baud <? 0)%Z then raise (ValueError "Not a valid baudrate")
  else if (tmo <? 0)%Z then raise (ValueError "Not a valid timeout")
  else
    blocking ;;;
    known <- get ports ;;
    if decide (p ∈ known)
    then emit (EvOpen p baud) ;;; ret (mkSerial true tmo)
    else raise SerialException.

Definition connect : M bool :=
  try_except
    (p <- get port ;; baud <- get baud_rate ;; tmo <- get timeout ;;
     s <- serial_Serial p baud tmo ;;
     modify (set_serial_port (Some s)) ;;;
     print (MsgConnected p baud) ;;;
     ret true)
    [(is_SerialException,
      fun e => p <- get port ;; print (MsgConnectError p e) ;;; ret false)].

Definition disconnect : M unit :=
  sp <- get serial_port ;;
  match sp with
  | Some s =>
      if is_open s
      then emit EvClose ;;;
           modify (set_serial_port (Some (mkSerial false (ser_timeout s)))) ;;;
           print MsgDisconnected
      else ret tt
  | None => ret tt
  end.

(** [if not self.serial_port or not self.serial_port.is_open: raise ...] *)
Definition require_connected : M unit :=
  sp <- get serial_port ;;
  match sp with
  | Some s => if is_open s then ret tt else raise (Exception "Serial port not connected")
  | None => raise (Exception "Serial port not connected")
  end.

Definition send_bytes (data : list Z) : M unit :=
  require_connected ;;;
  serial_write data ;;;
  serial_flush.

Definition receive_byte : M Z :=
  require_connected ;;;
  data <- serial_read 1 ;;
  match data with
  | [] => raise (Exception "Timeout waiting for response")
  | b :: _ => ret b
  end.

Definition send_magic_word : M unit :=
  print MsgSendingMagic ;;;
  magic_bytes <- struct_pack_I MAGIC_WORD ;;
  send_bytes magic_bytes ;;;
  sleep 100.

Definition send_program_size (size : nat) : M unit :=
  print (MsgSendingSize size) ;;;
  size_bytes <- struct_pack_I (Z.of_nat size) ;;
  send_bytes size_bytes ;;;
  sleep 100.

Definition send_load_address (address : Z) : M unit :=
  print (MsgSendingAddress address) ;;;
  addr_bytes <- struct_pack_I address ;;
  send_bytes addr_bytes ;;;
  sleep 100.

Definition chunk_size : nat := 64.

Definition send_program_data (data : list Z) : M unit :=
  print (MsgSendingData (length data)) ;;;
  for_each (py_range 0 (length data) chunk_size) (fun i =>
    let chunk := slice data i (i + chunk_size) in
    send_bytes chunk ;;;
    progress <- py_truediv (i + length chunk) (length data) ;;
    print (MsgProgress progress) ;;;
    sleep 10) ;;;
  print MsgNewline.

Definition wait_for_response : M bool :=
  print MsgWaiting ;;;
  try_except
    (response <- receive_byte ;;
     if (response =? SUCCESS_CODE)%Z then
       print MsgUploadSuccessful ;;; ret true
     else if (response =? ERROR_CODE)%Z then
       print MsgUploadFailed ;;; ret false
     else
       print (MsgUnexpectedResponse response) ;;; ret false)
    [(is_Exception, fun e => print (MsgErrorWaiting e) ;;; ret false)].

(** [files] holds the regular files that can be read: for them
    [os.path.exists] is true and [open(filename, 'rb')] succeeds. *)
Definition load_binary_file (filename : string) : M (list Z) :=
  fs <- get files ;;
  match fs !! filename with
  | None => raise (FileNotFoundError filename)
  | Some data =>
      print (MsgLoadedFile filename) ;;;
      print (MsgFileSize (length data)) ;;;
      ret data
  end.

Definition upload_program (binary_file : string) (load_address : option Z) : M bool :=
  let load_address := default DEFAULT_LOAD_ADDR load_address in
  try_except
    (program_data <- load_binary_file binary_file ;;
     let program_data := pad_to_word_boundary program_data in
     print MsgStartingUpload ;;;
     print (MsgFile binary_file) ;;;
     print (MsgSize (length program_data)) ;;;
     print (MsgLoadAddress load_address) ;;;
     print MsgNewline ;;;
     send_magic_word ;;;
     send_program_size (length program_data) ;;;
     send_load_address load_address ;;;
     send_program_data program_data ;;;
     success <- wait_for_response ;;
     (if success : bool
      then print MsgProgramUploaded ;;; print MsgShouldBeRunning
      else print MsgCheckConnections) ;;;
     ret success)
    [(is_Exception, fun e => print (MsgUploadError e) ;;; ret false)].

(** [self.serial_port.timeout = t] *)
Definition set_port_timeout (t : Z) : M unit :=
  sp <- get serial_port ;;
  match sp with
  | Some s => modify (set_serial_port (Some (mkSerial (is_open s) t)))
  | None => raise AttributeError
  end.

(** [b'AT\r\n'] *)
Definition test_data : list Z := [65; 84; 13; 10]%Z.

Definition test_connection : M bool :=
  print MsgTesting ;;;
  try_except
    (send_bytes test_data ;;;
     sleep 500 ;;;
     set_port_timeout 1 ;;;
     response <- serial_read 100 ;;
     tmo <- get timeout ;;
     set_port_timeout tmo ;;;
     if 0 <? length response
     then print (MsgReceivedResponse response) ;;; ret true
     else print MsgNoResponse ;;; ret true)
    [(is_Exception, fun e => print (MsgConnectionTestFailed e) ;;; ret false)].

(** ** main *)

Record args := mkArgs {
  arg_binary_file : string;
  arg_port : string;
  arg_baud : Z;
  arg_address : Z;
  arg_test : bool;
  arg_timeout : Z;
}.

Definition sys_exit {A} (code : Z) : M A := raise (SystemExit code).



(** The body of [main()] from the construction of the loader on, for the
    namespace [a] that [parse_args] returned. *)
Definition main (a : args) : M unit :=
  modify (init_loader (arg_port a) (arg_baud a) (arg_timeout a)) ;;;
  try_finally
    (try_except
       (connected <- connect ;;
        if negb connected then sys_exit 1
        else if arg_test a then
          passed <- test_connection ;;
          if passed : bool then print MsgTestPassed
          else print MsgTestFailed ;;; sys_exit 1
        else
          uploaded <- upload_program (arg_binary_file a) (Some (arg_address a)) ;;
          if negb uploaded then sys_exit 1 else ret tt)
       [(is_KeyboardInterrupt, fun _ => print MsgInterrupted ;;; sys_exit 1);
        (is_Exception, fun e => print (MsgUnexpectedError e) ;;; sys_exit 1)])
    disconnect.


(** The status the process exits with. *)
Definition exit_status (r : result unit) : Z :=
  match r with
  | Ok _ => 0
  | Raise (SystemExit code) => code
  | Raise _ => 1
  end.

(** ** The protocol as a sequence of events *)

(** The chunks [send_program_data] cuts its argument into. *)
Definition chunks_of (data : list Z) : list (list Z) :=
  map (fun i => slice data i (i + chunk_size)) (py_range 0 (length data) chunk_size).

Definition frame_events (frame : list Z) : list event :=
  [EvWrite frame; EvFlush; EvSleep 100].

Definition chunk_events (chunk : list Z) : list event :=
  [EvWrite chunk; EvFlush; EvSleep 10].

Definition header_events (payload : list Z) (address : Z) : list event :=
  frame_events (le_bytes MAGIC_WORD) ++
  frame_events (le_bytes (Z.of_nat (length payload))) ++
  frame_events (le_bytes address).

Definition transfer_events (payload : list Z) (address : Z) : list event :=
  header_events payload address ++ flat_map chunk_events (chunks_of payload).

(** A complete upload: header frames, data chunks, one status read. *)
Definition protocol_events (payload : list Z) (address : Z) (got : list Z) : list event :=
  transfer_events payload address ++ [EvRead 1 got].

(** The padded image [upload_program] works on. *)
Definition payload_of (w : world) (binary_file : string) : list Z :=
  pad_to_word_boundary (default [] (files w !! binary_file)).

(** The bytes the line delivers to the next [read(size)]. *)
Definition incoming (size : nat) (w : world) : list Z :=
  take size (drop (rx_pos w) (device w (sent (trace w)))).

(** A connected loader on a line that neither fails nor is interrupted. *)
Definition connected (w : world) : Prop :=
  exists s, serial_port w = Some s /\ is_open s = true.

Definition healthy (w : world) : Prop :=
  connected w /\ link_faults w = [] /\ interrupts w = [].

(** The world after more events and more console output. *)
Definition advance (evs : list event) (msgs : list message) (w : world) : world :=
  set_stdout (stdout w ++ msgs) (set_trace (trace w ++ evs) w).

(** ** Specifications used by the properties *)

(** The number of zero bytes that bring a length up to a word boundary. *)
Definition pad_gap (n : nat) : nat := (4 - n mod 4) mod 4.

(** The loader itself never calls [sys.exit]. *)
Definition not_exit (e : exn) : Prop :=
  match e with SystemExit _ => False | _ => True end.

(** [emits m full Q]: in every world, [m] appends to the trace a prefix of
    [full]; when it returns, it has appended all of [full] and the value
    satisfies [Q]. *)
Definition emits {A} (m : M A) (full : list event) (Q : A -> Prop) : Prop :=
  forall w, exists evs,
    trace (snd (m w)) = trace w ++ evs /\
    match fst (m w) with
    | Ok a => evs = full /\ Q a
    | Raise e => evs `prefix_of` full /\ not_exit e
    end.

(** [runs m a evs]: on a healthy line [m] returns [a], appends exactly
    [evs] to the trace, prints, and changes nothing else. *)
Definition runs {A} (m : M A) (a : A) (evs : list event) : Prop :=
  forall w, healthy w -> exists msgs, m w = (Ok a, advance evs msgs w).

(** The bytes the status read of an upload finds on the line. *)
Definition status_bytes (w : world) (payload : list Z) (address : Z) : list Z :=
  take 1 (drop (rx_pos w) (device w (sent (trace w ++ transfer_events payload address)))).

(** The data bytes of a (possibly interrupted) transfer: everything
    written after the three header frames. *)
Definition data_written (evs : list event) : list Z := concat (drop 3 (writes evs)).

(** A bench set-up: a connected loader, a 10-byte image on disk, a device
    that has [answer] ready on the line. *)
Definition image10 : list Z := [1; 2; 3; 4; 5; 6; 7; 8; 9; 10]%Z.

Definition bench (answer : list Z) : world :=
  mkWorld "COM3" 115200 5 (Some (mkSerial true 5))
          {["prog.bin" := image10]} {["COM3"]}
          (fun _ => answer) 0 [] [] [] [].

(** Does the serial call about to be made fail? *)
Definition line_fault (w : world) : bool :=
  match link_faults w with
  | true :: _ => true
  | _ => false
  end.




(** The claim of C4 on the bench: the four outcomes of the status read give
    four pairwise different results. *)
Definition status_results_distinct : Prop :=
  let verdict answer := fst (wait_for_response (bench answer)) in
  verdict [0xAA%Z] <> verdict [0xFF%Z] /\
  verdict [0xAA%Z] <> verdict [] /\
  verdict [0xAA%Z] <> verdict [0x00%Z] /\
  verdict [0xFF%Z] <> verdict [] /\
  verdict [0xFF%Z] <> verdict [0x00%Z] /\
  verdict [] <> verdict [0x00%Z].


(** Modelled from the spec: the simulated transport of the spec's test, a
    device that answers 0xAA once it has received a well-formed frame
    sequence (magic word, length, address, then as many data bytes as the
    length announced).  The device side is not part of the Python sources. *)
Definition simulated_bootloader (received : list Z) : list Z :=
  let magic := take 4 received in
  let size := le_value (take 4 (drop 4 received)) in
  if decide (magic = le_bytes MAGIC_WORD /\ Z.of_nat (length received) = (12 + size)%Z)
  then [SUCCESS_CODE]
  else [].

Definition simulated_bench : world :=
  mkWorld "COM3" 115200 5 (Some (mkSerial true 5))
          {["prog.bin" := image10]} {["COM3"]}
          simulated_bootloader 0 [] [] [] [].

(** The claim of C6: success, and exactly four writes of four bytes each. *)
Definition ten_byte_upload_as_claimed (w : world) : Prop :=
  let r := upload_program "prog.bin" (Some 0x1000%Z) w in
  fst r = Ok true /\
  exists magic size address chunk,
    writes (trace (snd r)) = [magic; size; address; chunk] /\
    length magic = 4 /\ length size = 4 /\ length address = 4 /\ length chunk = 4.

(** The claim of C9 on a world: the test writes one probe of two bytes
    and passes. *)
Definition probe_as_claimed (w : world) : Prop :=
  let r := test_connection w in
  fst r = Ok true /\
  exists probe, writes (trace (snd r)) = [probe] /\ length probe = 2.

(** ** Frame conditions of the loader *)

(** [keeps m]: [m] leaves the loader object and the file system as they
    were: the port handle, its state and the files on disk. *)
Definition keeps {A} (m : M A) : Prop :=
  forall w, serial_port (snd (m w)) = serial_port w /\
            files (snd (m w)) = files w /\
            timeout (snd (m w)) = timeout w.

(** [never_exits m]: whatever [m] raises, it is not [SystemExit]. *)
Definition never_exits {A} (m : M A) : Prop :=
  forall w, match fst (m w) with
            | Ok _ => True
            | Raise e => not_exit e
            end.

(** ** Progress reporting *)

(** The progress [send_program_data] reports after the chunk that starts
    at offset [i]: bytes sent so far, [i + len(chunk)], over [len(data)]. *)
Definition progress_after (data : list Z) (i : nat) : nat * nat :=
  (i + length (slice data i (i + chunk_size)), length data).

(** The progress reports of one transfer, in the order printed. *)
Definition progress_values (data : list Z) : list (nat * nat) :=
  map (progress_after data) (py_range 0 (length data) chunk_size).

(** * The memory-file converter: [Software/bin2verilog.py]

    The converter reads a binary, pads it like the loader does, cuts it into
    little-endian words and writes two Verilog initialisation files.  Its
    world is a disk (file name to bytes) and a console; text is written in
    text mode, so what reaches the disk is the encoding of the strings
    (POSIX: no newline translation).  A name on the disk is a regular file
    that can be read; [unwritable] holds the paths that [open(path, 'w')]
    refuses with an [OSError] (missing directory, no permission, a
    directory). *)

Module Bin2Verilog.

Record state := mkState {
  disk : gmap string (list Z);
  console : list string;
  unwritable : gset string;
}.

(** [print(s)] *)
Definition say (s : string) (st : state) : state :=
  mkState (disk st) (console st ++ [s]) (unwritable st).

Definition nl : string := String (Ascii.ascii_of_nat 10) EmptyString.
Definition dq : string := String (Ascii.ascii_of_nat 34) EmptyString.

(** The characters ['0'] and ['=']. *)
Definition char_0 : Ascii.ascii := Ascii.ascii_of_nat 48.
Definition char_eq : Ascii.ascii := Ascii.ascii_of_nat 61.

Definition join (pieces : list string) : string := foldr String.append EmptyString pieces.

(** The bytes of a text. *)
Definition encode (s : string) : list Z :=
  map (fun c => Z.of_nat (Ascii.nat_of_ascii c)) (String.list_ascii_of_string s).

(** [with open(name, 'w') as f: f.write(p1); f.write(p2); ...]: when the
    file cannot be opened the [OSError] propagates and nothing is written. *)
Definition write_text (name : string) (pieces : list string) (st : state)
  : result unit * state :=
  if decide (name ∈ unwritable st) then (Raise OSError, st)
  else (Ok tt, mkState (<[name := encode (join pieces)]> (disk st)) (console st)
                       (unwritable st)).

(** [struct.unpack('<I', bs)[0]]: [struct.error] unless there are exactly
    four bytes. *)
Definition struct_unpack_I (bs : list Z) : result Z :=
  if decide (length bs = 4) then Ok (le_value bs) else Raise StructError.

(** A loop that appends [f x] for every [x] and stops at the first
    exception. *)
Fixpoint collect {A B} (f : A -> result B) (xs : list A) : result (list B) :=
  match xs with
  | [] => Ok []
  | x :: rest =>
      match f x with
      | Raise e => Raise e
      | Ok b => match collect f rest with
                | Raise e => Raise e
                | Ok bs => Ok (b :: bs)
                end
      end
  end.

(** [for i in range(0, len(data), 4): words.append(unpack(data[i:i+4]))] *)
Definition unpack_words (binary_data : list Z) : result (list Z) :=
  collect (fun i => struct_unpack_I (slice binary_data i (i + 4)))
          (py_range 0 (length binary_data) 4).

Definition hex_digit (d : Z) : Ascii.ascii :=
  nth (Z.to_nat d) (String.list_ascii_of_string "0123456789abcdef") char_0.

(** The hexadecimal digits of a non-negative number, most significant
    first, without leading zeros. *)
Fixpoint hex_digits (fuel : nat) (v : Z) : list Ascii.ascii :=
  match fuel with
  | O => []
  | S fuel' =>
      if (v <? 16)%Z then [hex_digit v]
      else hex_digits fuel' (v / 16) ++ [hex_digit (v mod 16)]
  end.

(** [format(v, 'x')] for [v >= 0] *)
Definition format_x (v : Z) : string :=
  String.string_of_list_ascii (hex_digits (S (Z.to_nat (Z.log2 v))) v).

(** ['{:08x}'.format(v)]: at least eight digits, padded with zeros. *)
Definition format_08x (v : Z) : string :=
  let digits := format_x v in
  String.string_of_list_ascii (replicate (8 - String.length digits) char_0) +:+ digits.

(** [base_addr = 1024  # 0x1000 / 4] *)
Definition base_addr : nat := 1024.

Definition memory_line (addr : nat) (word : Z) : string :=
  "    memory[" +:+ pretty addr +:+ "] = 32'h" +:+ format_08x word +:+ ";" +:+ nl.

(** The [f.write] calls that make the instruction memory file. *)
Definition imem_writes (bin_file : string) (words : list Z) : list string :=
  [ "// Instruction Memory Initialization for MinCPU" +:+ nl;
    "// Generated from: " +:+ bin_file +:+ nl;
    "// Total words: " +:+ pretty (length words) +:+ nl +:+ nl;
    "initial begin" +:+ nl;
    "    // Initialize all memory to NOPs" +:+ nl;
    "    for (i = 0; i < MEM_SIZE; i = i + 1) begin" +:+ nl;
    "        memory[i] = 32'h00000013; // ADDI x0, x0, 0 (NOP)" +:+ nl;
    "    end" +:+ nl +:+ nl;
    "    // Load program starting at address 0x1000 (word address 1024)" +:+ nl ] ++
  imap (fun i word => memory_line (base_addr + i) word) words ++
  [ nl +:+ "    $display(" +:+ dq +:+ "Loaded " +:+ pretty (length words) +:+
      " instructions starting at address 0x1000" +:+ dq +:+ ");" +:+ nl;
    "end" +:+ nl ].

(** The [f.write] calls that make the data memory file. *)
Definition dmem_writes (bin_file : string) : list string :=
  [ "// Data Memory Initialization for MinCPU" +:+ nl;
    "// Generated from: " +:+ bin_file +:+ nl +:+ nl;
    "initial begin" +:+ nl;
    "    // Initialize data memory to zero" +:+ nl;
    "    for (i = 0; i < MEM_SIZE; i = i + 1) begin" +:+ nl;
    "        memory[i] = 32'h00000000;" +:+ nl;
    "    end" +:+ nl;
    "end" +:+ nl ].

Definition bin_to_verilog (bin_file imem_file dmem_file : string) (st : state)
  : result bool * state :=
  match disk st !! bin_file with
  | None => (Ok false, say ("Error: Binary file '" +:+ bin_file +:+ "' not found") st)
  | Some binary_data =>
      let binary_data := pad_to_word_boundary binary_data in
      match unpack_words binary_data with
      | Raise e => (Raise e, st)
      | Ok words =>
          match write_text imem_file (imem_writes bin_file words) st with
          | (Raise e, st) => (Raise e, st)
          | (Ok _, st) =>
              match write_text dmem_file (dmem_writes bin_file) st with
              | (Raise e, st) => (Raise e, st)
              | (Ok _, st) =>
                  let st := say "Generated Verilog memory files:" st in
                  let st := say ("  Instruction memory: " +:+ imem_file +:+ " (" +:+
                                 pretty (length words) +:+ " words)") st in
                  let st := say ("  Data memory: " +:+ dmem_file) st in
                  (Ok true, st)
              end
          end
      end
  end.

(** [word_count = (file_size + 3) // 4] *)
Definition word_count (file_size : nat) : nat := (file_size + 3) / 4.

Definition analyze_binary (bin_file : string) (st : state) : state :=
  match disk st !! bin_file with
  | None => say ("Error: Binary file '" +:+ bin_file +:+ "' not found") st
  | Some content =>
      let file_size := length content in
      let st := say (nl +:+ "Binary Analysis:") st in
      let st := say ("  File: " +:+ bin_file) st in
      let st := say ("  Size: " +:+ pretty file_size +:+ " bytes") st in
      let st := say ("  Words: " +:+ pretty (word_count file_size)) st in
      say ("  Memory usage: " +:+ pretty (word_count file_size * 4) +:+ " bytes") st
  end.

Definition usage : list string :=
  [ "Usage: python3 bin2verilog.py <binary_file> <imem_output> <dmem_output>";
    EmptyString;
    "Example:";
    "  python3 bin2verilog.py hello.bin hello_imem.v hello_dmem.v" ].

(** [main()], with [sys.argv] as argument.  Nothing here catches an
    exception of [bin_to_verilog]: it ends the process with a traceback. *)
Definition main (argv : list string) (st : state) : result unit * state :=
  match argv with
  | [_; bin_file; imem_file; dmem_file] =>
      let st := say "MinCPU Binary to Verilog Converter" st in
      let st := say (String.string_of_list_ascii (replicate 40 char_eq)) st in
      let st := analyze_binary bin_file st in
      match bin_to_verilog bin_file imem_file dmem_file st with
      | (Ok true, st) => (Ok tt, say (nl +:+ "Conversion completed successfully!") st)
      | (Ok false, st) => (Raise (SystemExit 1), say (nl +:+ "Conversion failed!") st)
      | (Raise e, st) => (Raise e, st)
      end
  | _ => (Raise (SystemExit 1), foldl (fun s line => say line s) st usage)
  end.

(** Reading hexadecimal text back. *)
Definition hex_digit_value (c : Ascii.ascii) : Z :=
  let n := Ascii.nat_of_ascii c in
  if (48 <=? n) && (n <=? 57) then Z.of_nat (n - 48)
  else if (97 <=? n) && (n <=? 102) then Z.of_nat (n - 87)
  else 0.

Definition hex_step (acc : Z) (c : Ascii.ascii) : Z := (16 * acc + hex_digit_value c)%Z.

Definition hex_value (s : string) : Z :=
  foldl hex_step 0%Z (String.list_ascii_of_string s).

End Bin2Verilog.


(** * Properties *)

(** ** Padding *)

Section Padding.

Lemma pad_gap_aligned n : n mod 4 = 0 -> pad_gap n = 0.
Proof. unfold pad_gap. intros ->. reflexivity. Qed.

Lemma pad_gap_step n : n mod 4 <> 0 -> pad_gap n = S (pad_gap (n + 1)).
Proof.
  unfold pad_gap. intros Hr.
  rewrite (Nat.Div0.add_mod n 1 4).
  pose proof (Nat.mod_upper_bound n 4 ltac:(lia)) as Hlt.
  destruct (n mod 4) as [|[|[|[|r]]]]; try reflexivity; lia.
Qed.

Lemma pad_gap_bound n : pad_gap n < 4.
Proof. apply Nat.mod_upper_bound. lia. Qed.

Lemma pad_gap_total n : (n + pad_gap n) mod 4 = 0.
Proof.
  unfold pad_gap.
  pose proof (Nat.mod_upper_bound n 4 ltac:(lia)) as Hlt.
  rewrite (Nat.Div0.add_mod n _ 4), Nat.Div0.mod_mod.
  destruct (n mod 4) as [|[|[|[|r]]]]; try reflexivity; lia.
Qed.

Lemma pad_gap_least n m : m mod 4 = 0 -> n <= m -> n + pad_gap n <= m.
Proof.
  intros Hm Hle.
  pose proof (pad_gap_total n) as Ht. pose proof (pad_gap_bound n) as Hb.
  pose proof (Nat.div_mod_eq m 4) as Em.
  pose proof (Nat.div_mod_eq (n + pad_gap n) 4) as En.
  rewrite Hm in Em. rewrite Ht in En. lia.
Qed.

Lemma pad_to_word_boundary_eq data :
  pad_to_word_boundary data = data ++ replicate (pad_gap (length data)) 0%Z.
Proof.
  funelim (pad_to_word_boundary data).
  - rewrite pad_gap_aligned by assumption. simpl. now rewrite app_nil_r.
  - match goal with IH : pad_to_word_boundary _ = _ ++ _ |- _ => rewrite IH end.
    rewrite (pad_gap_step (length data)) by assumption.
    rewrite length_app. simpl. now rewrite <- app_assoc.
Qed.

Lemma pad_to_word_boundary_length data :
  length (pad_to_word_boundary data) = length data + pad_gap (length data).
Proof. now rewrite pad_to_word_boundary_eq, length_app, length_replicate. Qed.

End Padding.

(** ** Chunking *)

Section Chunking.

Lemma py_range_cons start stop step :
  0 < step -> start < stop ->
  py_range start stop step = start :: py_range (start + step) stop step.
Proof.
  intros Hstep Hlt. rewrite py_range_equation_1. simpl.
  destruct (decide (0 < step /\ start < stop)); [reflexivity | lia].
Qed.

Lemma py_range_nil start stop step : stop <= start -> py_range start stop step = [].
Proof.
  intros Hle. rewrite py_range_equation_1. simpl.
  destruct (decide (0 < step /\ start < stop)); [lia | reflexivity].
Qed.

(** The loop runs ceil((stop - start) / step) times. *)
Lemma py_range_length start stop step :
  0 < step -> length (py_range start stop step) = (stop - start + (step - 1)) / step.
Proof.
  funelim (py_range start stop step); intros Hstep; cbn [length].
  - match goal with IH : _ -> length _ = _ |- _ => rewrite IH by assumption end.
    destruct (decide (stop - start <= step)) as [Hsmall | Hbig].
    + replace (stop - (start + step)) with 0 by lia. rewrite Nat.add_0_l.
      rewrite Nat.div_small by lia.
      apply (Nat.div_unique _ _ 1 (stop - start - 1)); lia.
    + replace (stop - start + (step - 1))
        with (stop - (start + step) + (step - 1) + 1 * step) by lia.
      rewrite Nat.div_add by lia. lia.
  - replace (stop - start) with 0 by lia. rewrite Nat.add_0_l.
    symmetry. apply Nat.div_small. lia.
Qed.

(** The [k]-th value of the loop variable. *)
Lemma py_range_lookup start stop step k i :
  py_range start stop step !! k = Some i -> i = start + k * step /\ i < stop.
Proof.
  revert k. funelim (py_range start stop step); intros k Hk.
  - destruct k as [|k]; simpl in Hk.
    + inversion Hk; subst. lia.
    + match goal with IH : forall k, _ -> _ |- _ => apply IH in Hk end. lia.
  - discriminate.
Qed.

Lemma slice_length data i j : length (slice data i j) = min (j - i) (length data - i).
Proof. unfold slice. now rewrite length_take, length_drop. Qed.

Lemma concat_slices data start :
  concat (map (fun i => slice data i (i + chunk_size))
              (py_range start (length data) chunk_size)) = drop start data.
Proof.
  remember (length data) as stop eqn:Hstop.
  remember chunk_size as step eqn:Hstep.
  funelim (py_range start stop step); simpl.
  - match goal with IH : _ -> _ -> concat _ = _ |- _ => rewrite IH by reflexivity end.
    unfold slice, chunk_size.
    replace (start + 64 - start) with 64 by lia.
    rewrite <- (drop_drop data 64 start). apply take_drop.
  - symmetry. apply drop_ge. unfold chunk_size in *. lia.
Qed.

Lemma chunks_of_concat data : concat (chunks_of data) = data.
Proof. unfold chunks_of. now rewrite concat_slices, drop_0. Qed.

Lemma chunks_of_length data : length (chunks_of data) = (length data + 63) / 64.
Proof.
  unfold chunks_of, chunk_size. rewrite length_map, py_range_length by lia.
  now rewrite Nat.sub_0_r.
Qed.

Lemma chunks_of_lookup data k c :
  chunks_of data !! k = Some c ->
  c = take 64 (drop (64 * k) data) /\ 64 * k < length data.
Proof.
  unfold chunks_of. rewrite list_lookup_fmap.
  destruct (py_range 0 (length data) chunk_size !! k) as [i|] eqn:Hi;
    simpl; [|discriminate].
  intros Hc. inversion Hc; subst. apply py_range_lookup in Hi as [-> Hlt].
  unfold slice, chunk_size in *.
  replace (0 + k * 64 + 64 - (0 + k * 64)) with 64 by lia.
  replace (0 + k * 64) with (64 * k) in * by lia. auto.
Qed.

Lemma chunk_length data k c :
  chunks_of data !! k = Some c -> length c = min 64 (length data - 64 * k).
Proof.
  intros Hc. apply chunks_of_lookup in Hc as [-> _].
  now rewrite length_take, length_drop.
Qed.

Lemma chunks_of_full data k c :
  chunks_of data !! k = Some c -> S k < length (chunks_of data) -> length c = 64.
Proof.
  intros Hc Hk. rewrite (chunk_length _ _ _ Hc).
  rewrite chunks_of_length in Hk.
  pose proof (Nat.div_mod_eq (length data + 63) 64) as E.
  pose proof (Nat.mod_upper_bound (length data + 63) 64 ltac:(lia)) as Hr.
  lia.
Qed.

Lemma chunks_of_last data c :
  last (chunks_of data) = Some c ->
  length c = if decide (length data mod 64 = 0) then 64 else length data mod 64.
Proof.
  rewrite last_lookup. intros Hc.
  pose proof (chunks_of_lookup _ _ _ Hc) as [_ Hpos].
  rewrite (chunk_length _ _ _ Hc). rewrite chunks_of_length in *.
  pose proof (Nat.div_mod_eq (length data + 63) 64) as E.
  pose proof (Nat.mod_upper_bound (length data + 63) 64 ltac:(lia)) as Hr.
  pose proof (Nat.div_mod_eq (length data) 64) as E'.
  pose proof (Nat.mod_upper_bound (length data) 64 ltac:(lia)) as Hr'.
  destruct (decide (length data mod 64 = 0)); lia.
Qed.

Lemma chunks_of_nil : chunks_of [] = [].
Proof. reflexivity. Qed.

End Chunking.

(** ** Frame codec *)

Section Codec.
Local Open Scope Z_scope.

Lemma low_byte v : Z.land v 255 = v mod 256.
Proof. change 255 with (Z.ones 8). now rewrite Z.land_ones by lia. Qed.

Lemma le_bytes_eq v :
  le_bytes v = [v mod 256; (v / 2 ^ 8) mod 256; (v / 2 ^ 16) mod 256; (v / 2 ^ 24) mod 256].
Proof.
  unfold le_bytes. rewrite !low_byte, !Z.shiftr_div_pow2 by lia. reflexivity.
Qed.

Lemma le_bytes_length v : length (le_bytes v) = 4%nat.
Proof. reflexivity. Qed.

Lemma le_bytes_range v b : In b (le_bytes v) -> 0 <= b < 256.
Proof.
  rewrite le_bytes_eq. simpl.
  intros [<- | [<- | [<- | [<- | []]]]]; apply Z.mod_pos_bound; lia.
Qed.

Lemma le_value_le_bytes v : 0 <= v < 2 ^ 32 -> le_value (le_bytes v) = v.
Proof.
  intros Hv. rewrite le_bytes_eq. cbn [le_value].
  change (2 ^ 8) with 256. change (2 ^ 16) with 65536. change (2 ^ 24) with 16777216.
  change (2 ^ 32) with 4294967296 in Hv.
  Z.div_mod_to_equations. lia.
Qed.

Lemma struct_pack_I_ok v w : 0 <= v < 2 ^ 32 -> struct_pack_I v w = (Ok (le_bytes v), w).
Proof.
  intros Hv. unfold struct_pack_I.
  replace ((0 <=? v) && (v <? 2 ^ 32)) with true; [reflexivity|].
  symmetry. apply andb_true_iff. split; [apply Z.leb_le | apply Z.ltb_lt]; lia.
Qed.

Lemma magic_bytes_eq : le_bytes MAGIC_WORD = [0xEF; 0xBE; 0xAD; 0xDE].
Proof. reflexivity. Qed.

End Codec.

(** ** What a computation does to the line, in every world *)

Section Emission.

Lemma emits_ret {A} (a : A) : emits (ret a) [] (eq a).
Proof. intros w. exists []. simpl. now rewrite app_nil_r. Qed.

Lemma emits_raise {A} (e : exn) full (Q : A -> Prop) :
  not_exit e -> emits (raise e) full Q.
Proof.
  intros He w. exists []. simpl. rewrite app_nil_r.
  split; [reflexivity | split; [apply prefix_nil | assumption]].
Qed.

Lemma emits_bind {A B} (m : M A) (k : A -> M B) f1 f2 Q1 Q2 :
  emits m f1 Q1 -> (forall a, Q1 a -> emits (k a) f2 Q2) ->
  emits (bind m k) (f1 ++ f2) Q2.
Proof.
  intros Hm Hk w. unfold bind.
  destruct (Hm w) as (evs1 & Ht & Hr).
  destruct (m w) as [[a | e] w1]; simpl in *.
  - destruct Hr as [-> Qa].
    destruct (Hk a Qa w1) as (evs2 & Ht2 & Hr2).
    exists (f1 ++ evs2). rewrite Ht2, Ht, app_assoc. split; [reflexivity|].
    destruct (fst (k a w1)).
    + destruct Hr2 as [-> ?]. auto.
    + destruct Hr2 as [Hp ?]. split; [now apply prefix_app | assumption].
  - exists evs1. destruct Hr as [Hp ?].
    split; [assumption | split; [now apply prefix_app_r | assumption]].
Qed.

Lemma emits_weaken {A} (m : M A) full (Q Q' : A -> Prop) :
  emits m full Q -> (forall a, Q a -> Q' a) -> emits m full Q'.
Proof.
  intros Hm HQ w. destruct (Hm w) as (evs & Ht & Hr). exists evs.
  split; [assumption|]. destruct (fst (m w)); [|assumption].
  destruct Hr. auto.
Qed.

(** Sequencing when the first step is silent. *)
Lemma emits_silent_bind {A B} (m : M A) (k : A -> M B) full Q1 Q2 :
  emits m [] Q1 -> (forall a, Q1 a -> emits (k a) full Q2) ->
  emits (bind m k) full Q2.
Proof. intros Hm Hk. apply (emits_bind m k [] full Q1 Q2); assumption. Qed.

Lemma emits_get {A} (f : world -> A) : emits (get f) [] (fun _ => True).
Proof. intros w. exists []. simpl. now rewrite app_nil_r. Qed.

Lemma emits_print msg : emits (print msg) [] (fun _ => True).
Proof. intros w. exists []. simpl. now rewrite app_nil_r. Qed.

Lemma emits_emit e : emits (emit e) [e] (fun _ => True).
Proof. intros w. exists [e]. simpl. auto. Qed.

Lemma emits_blocking : emits blocking [] (fun _ => True).
Proof.
  intros w. exists []. unfold blocking. rewrite app_nil_r.
  destruct (interrupts w) as [|[|] l]; simpl; auto.
Qed.

Lemma emits_serial_call : emits serial_call [] (fun _ => True).
Proof.
  unfold serial_call. eapply emits_silent_bind; [apply emits_blocking|].
  intros _ _ w. exists []. rewrite app_nil_r.
  destruct (link_faults w) as [|[|] l]; simpl; auto.
Qed.

Lemma emits_sleep ms : emits (sleep ms) [EvSleep ms] (fun _ => True).
Proof.
  unfold sleep. eapply emits_silent_bind; [apply emits_blocking|].
  intros _ _. apply emits_emit.
Qed.

Lemma emits_serial_write data : emits (serial_write data) [EvWrite data] (fun _ => True).
Proof.
  unfold serial_write. eapply emits_silent_bind; [apply emits_serial_call|].
  intros _ _. apply emits_emit.
Qed.

Lemma emits_serial_flush : emits serial_flush [EvFlush] (fun _ => True).
Proof.
  unfold serial_flush. eapply emits_silent_bind; [apply emits_serial_call|].
  intros _ _. apply emits_emit.
Qed.

Lemma emits_require_connected : emits require_connected [] (fun _ => True).
Proof.
  intros w. exists []. unfold require_connected, bind, get. rewrite app_nil_r.
  destruct (serial_port w) as [[[|] t]|]; simpl; auto.
Qed.

Lemma emits_send_bytes data :
  emits (send_bytes data) [EvWrite data; EvFlush] (fun _ => True).
Proof.
  unfold send_bytes.
  eapply emits_silent_bind; [apply emits_require_connected|]. intros _ _.
  apply (emits_bind _ _ [EvWrite data] [EvFlush] _ _ (emits_serial_write data)).
  intros _ _. apply emits_serial_flush.
Qed.

Lemma emits_struct_pack_I v : emits (struct_pack_I v) [] (eq (le_bytes v)).
Proof.
  unfold struct_pack_I. destruct (_ && _).
  - apply emits_ret.
  - now apply emits_raise.
Qed.

(** A header frame: the little-endian word, a flush, the settle delay. *)
Lemma emits_frame msg v :
  emits (print msg ;;; bs <- struct_pack_I v ;; send_bytes bs ;;; sleep 100)
        (frame_events (le_bytes v)) (fun _ => True).
Proof.
  eapply emits_silent_bind; [apply emits_print|]. intros _ _.
  eapply emits_silent_bind; [apply emits_struct_pack_I|]. intros bs <-.
  apply (emits_bind _ _ [EvWrite (le_bytes v); EvFlush] [EvSleep 100] _ _
           (emits_send_bytes _)).
  intros _ _. apply emits_sleep.
Qed.

Lemma emits_send_magic_word :
  emits send_magic_word (frame_events (le_bytes MAGIC_WORD)) (fun _ => True).
Proof. apply emits_frame. Qed.

Lemma emits_send_program_size size :
  emits (send_program_size size) (frame_events (le_bytes (Z.of_nat size))) (fun _ => True).
Proof. apply emits_frame. Qed.

Lemma emits_send_load_address address :
  emits (send_load_address address) (frame_events (le_bytes address)) (fun _ => True).
Proof. apply emits_frame. Qed.

Lemma emits_for_each {A} (xs : list A) (body : A -> M unit) (f : A -> list event) :
  (forall x, emits (body x) (f x) (fun _ => True)) ->
  emits (for_each xs body) (flat_map f xs) (fun _ => True).
Proof.
  intros Hbody. induction xs as [|x xs IH]; simpl.
  - eapply emits_weaken; [apply emits_ret | auto].
  - eapply emits_bind; [apply Hbody | intros _ _; apply IH].
Qed.

Lemma emits_py_truediv a b : emits (py_truediv a b) [] (fun _ => True).
Proof.
  unfold py_truediv. destruct b.
  - now apply emits_raise.
  - eapply emits_weaken; [apply emits_ret | auto].
Qed.

Lemma flat_map_fmap {A B C} (g : A -> B) (f : B -> list C) (xs : list A) :
  flat_map f (map g xs) = flat_map (fun x => f (g x)) xs.
Proof. induction xs as [|x xs IH]; simpl; [reflexivity | now rewrite IH]. Qed.

Lemma emits_send_program_data data :
  emits (send_program_data data) (flat_map chunk_events (chunks_of data)) (fun _ => True).
Proof.
  unfold send_program_data.
  eapply emits_silent_bind; [apply emits_print|]. intros _ _.
  rewrite <- (app_nil_r (flat_map _ _)).
  eapply emits_bind; [|intros _ _; apply emits_print].
  unfold chunks_of. rewrite flat_map_fmap.
  apply emits_for_each. intros i. unfold chunk_events.
  apply (emits_bind _ _ [EvWrite _; EvFlush] [EvSleep 10] _ _ (emits_send_bytes _)).
  intros _ _.
  eapply emits_silent_bind; [apply emits_py_truediv|]. intros ratio _.
  eapply emits_silent_bind; [apply emits_print|]. intros _ _.
  apply emits_sleep.
Qed.

(** Header frames and data chunks, in the order [upload_program] sends them. *)
Lemma emits_transfer payload address :
  emits (send_magic_word ;;;
         send_program_size (length payload) ;;;
         send_load_address address ;;;
         send_program_data payload)
        (transfer_events payload address) (fun _ => True).
Proof.
  unfold transfer_events, header_events. rewrite <- !app_assoc.
  eapply emits_bind; [apply emits_send_magic_word|]. intros _ _.
  eapply emits_bind; [apply emits_send_program_size|]. intros _ _.
  eapply emits_bind; [apply emits_send_load_address|]. intros _ _.
  apply emits_send_program_data.
Qed.

End Emission.

(** ** The status read and the whole upload, in every world *)

Section Upload.

Lemma print_bind {A} msg (k : M A) w :
  (print msg ;;; k) w = k (set_stdout (stdout w ++ [msg]) w).
Proof. reflexivity. Qed.

Ltac run_monad :=
  unfold try_except, receive_byte, require_connected, serial_read, serial_call,
    blocking, bind, get, print, modify, emit, raise, ret, handle; cbn.

(** [wait_for_response] reads at most once; it answers [True] only for a
    received success code, and only Ctrl-C escapes it. *)
Lemma wait_for_response_cases w :
  let r := wait_for_response w in
  (fst r = Ok true /\ trace (snd r) = trace w ++ [EvRead 1 [SUCCESS_CODE]]) \/
  (fst r = Ok false /\
     (trace (snd r) = trace w \/
      exists got, got <> [SUCCESS_CODE] /\ trace (snd r) = trace w ++ [EvRead 1 got])) \/
  (fst r = Raise KeyboardInterrupt /\ trace (snd r) = trace w).
Proof.
  unfold wait_for_response. run_monad.
  destruct (serial_port w) as [[[|] t]|]; cbn; auto.
  destruct (interrupts w) as [|[|] li]; cbn; auto;
    destruct (link_faults w) as [|[|] lf]; cbn; auto.
  all: match goal with
       | |- context [take 1 ?l] => destruct l as [|b rest]; cbn
       end.
  all: try (right; left; split; [reflexivity|]; right; exists [];
            split; [discriminate | reflexivity]).
  all: rewrite take_0; destruct (Z.eqb_spec b SUCCESS_CODE) as [-> | Hb]; cbn;
       [left; auto|].
  all: destruct (b =? ERROR_CODE)%Z; cbn; right; left; (split; [reflexivity|]);
       right; exists [b]; (split; [congruence | reflexivity]).
Qed.

Lemma bind_unfold {A B} (m : M A) (k : A -> M B) w :
  bind m k w = match m w with
               | (Ok a, w') => k a w'
               | (Raise e, w') => (Raise e, w')
               end.
Proof. reflexivity. Qed.

Lemma regroup4 {B} (m1 m2 m3 m4 : M unit) (rest : M B) w :
  (m1 ;;; m2 ;;; m3 ;;; m4 ;;; rest) w = ((m1 ;;; m2 ;;; m3 ;;; m4) ;;; rest) w.
Proof.
  unfold bind.
  destruct (m1 w) as [[[]|e1] w1]; [|reflexivity].
  destruct (m2 w1) as [[[]|e2] w2]; [|reflexivity].
  destruct (m3 w2) as [[[]|e3] w3]; [|reflexivity].
  destruct (m4 w3) as [[[]|e4] w4]; reflexivity.
Qed.

Lemma load_binary_file_run filename w :
  (exists img w1, files w !! filename = Some img /\
                  load_binary_file filename w = (Ok img, w1) /\ trace w1 = trace w) \/
  (files w !! filename = None /\
   load_binary_file filename w = (Raise (FileNotFoundError filename), w)).
Proof.
  unfold load_binary_file, bind, get, print, modify, ret, raise.
  destruct (files w !! filename) as [img|]; [left | right; auto].
  eexists _, _. split; [reflexivity|]. split; reflexivity.
Qed.

(** Every run of [upload_program]: what it returns and what it did to the
    line.  [True] requires the complete protocol and a success code; any
    [Exception] on the way yields [False] after a prefix of the protocol;
    only Ctrl-C propagates. *)
Lemma upload_program_cases w binary_file load_address :
  let r := upload_program binary_file load_address w in
  let payload := payload_of w binary_file in
  let address := default DEFAULT_LOAD_ADDR load_address in
  exists evs, trace (snd r) = trace w ++ evs /\
    ((fst r = Ok true /\ evs = protocol_events payload address [SUCCESS_CODE] /\
      is_Some (files w !! binary_file)) \/
     (fst r = Ok false /\
      (evs `prefix_of` transfer_events payload address \/
       exists got, got <> [SUCCESS_CODE] /\ evs = protocol_events payload address got)) \/
     (fst r = Raise KeyboardInterrupt /\ evs `prefix_of` transfer_events payload address)).
Proof.
  cbv zeta. unfold upload_program, payload_of, try_except.
  set (address := default DEFAULT_LOAD_ADDR load_address).
  rewrite bind_unfold.
  destruct (load_binary_file_run binary_file w) as [(img & w1 & Hf & -> & Ht1) | [Hf ->]].
  2:{ exists []. rewrite app_nil_r. split; [reflexivity|].
      right; left. split; [reflexivity|]. left. apply prefix_nil. }
  rewrite Hf. cbn [default].
  set (payload := pad_to_word_boundary img).
  rewrite !print_bind.
  match goal with |- context [_ (set_stdout ?o ?w0)] => set (w2 := set_stdout o w0) end.
  assert (Ht2 : trace w2 = trace w) by (subst w2; cbn; exact Ht1).
  clearbody w2. rewrite regroup4, bind_unfold.
  destruct (emits_transfer payload address w2) as (evs & Ht & Hr).
  match type of Ht with trace (snd ?x) = _ => destruct x as [[[]|e] w3] end;
    cbn [fst snd] in Ht, Hr.
  2:{ destruct Hr as [Hp He]. exists evs. rewrite <- Ht2.
      destruct e; cbn in He |- *; try contradiction; auto 6. }
  destruct Hr as [-> _]. rewrite bind_unfold.
  pose proof (wait_for_response_cases w3) as Hw. cbv zeta in Hw.
  destruct (wait_for_response w3) as [[[|]|e] w4]; cbn [fst snd] in Hw;
    destruct Hw as [[Hr Ht4] | [[Hr Ht4] | [Hr Ht4]]]; try discriminate Hr.
  - exists (protocol_events payload address [SUCCESS_CODE]).
    cbn -[protocol_events transfer_events app].
    rewrite Ht4, Ht, Ht2. unfold protocol_events. rewrite app_assoc.
    split; [reflexivity|]. left. auto.
  - cbn -[protocol_events transfer_events app]. rewrite <- Ht2. destruct Ht4 as [Ht4 | (got & Hg & Ht4)]; rewrite Ht4, Ht.
    + exists (transfer_events payload address). split; [reflexivity|].
      right; left. split; [reflexivity|]. now left.
    + exists (protocol_events payload address got). unfold protocol_events.
      rewrite app_assoc. split; [reflexivity|].
      right; left. split; [reflexivity|]. right. exists got. auto.
  - inversion Hr; subst e. cbn -[protocol_events transfer_events app].
    exists (transfer_events payload address).
    rewrite Ht4, Ht, Ht2. split; [reflexivity|]. right; right. auto.
Qed.

End Upload.

(** ** Runs on a healthy line *)

Section Healthy.

Lemma advance_advance e1 m1 e2 m2 w :
  advance e2 m2 (advance e1 m1 w) = advance (e1 ++ e2) (m1 ++ m2) w.
Proof. unfold advance. destruct w; cbn. now rewrite !app_assoc. Qed.

Lemma advance_nil w : advance [] [] w = w.
Proof. unfold advance. destruct w; cbn. now rewrite !app_nil_r. Qed.

Lemma healthy_advance evs msgs w : healthy w -> healthy (advance evs msgs w).
Proof. intros H. exact H. Qed.

Lemma runs_ret {A} (a : A) : runs (ret a) a [].
Proof. intros w _. exists []. unfold ret. now rewrite advance_nil. Qed.

Lemma runs_bind {A B} (m : M A) (k : A -> M B) a b e1 e2 :
  runs m a e1 -> runs (k a) b e2 -> runs (bind m k) b (e1 ++ e2).
Proof.
  intros Hm Hk w Hw. unfold bind.
  destruct (Hm w Hw) as [m1 ->].
  destruct (Hk _ (healthy_advance e1 m1 w Hw)) as [m2 ->].
  exists (m1 ++ m2). now rewrite advance_advance.
Qed.

Lemma runs_silent_bind {A B} (m : M A) (k : A -> M B) a b evs :
  runs m a [] -> runs (k a) b evs -> runs (bind m k) b evs.
Proof. intros Hm Hk. apply (runs_bind m k a b [] evs Hm Hk). Qed.

Lemma runs_print msg : runs (print msg) tt [].
Proof.
  intros w _. exists [msg]. unfold print, modify, advance.
  destruct w; cbn. now rewrite app_nil_r.
Qed.

Lemma runs_emit e : runs (emit e) tt [e].
Proof.
  intros w _. exists []. unfold emit, modify, advance.
  destruct w; cbn. now rewrite app_nil_r.
Qed.

Lemma runs_blocking : runs blocking tt [].
Proof.
  intros w (_ & _ & Hi). exists []. unfold blocking. now rewrite Hi, advance_nil.
Qed.

Lemma runs_serial_call : runs serial_call tt [].
Proof.
  unfold serial_call. eapply runs_silent_bind; [apply runs_blocking|].
  intros w (_ & Hf & _). exists []. now rewrite Hf, advance_nil.
Qed.

Lemma runs_sleep ms : runs (sleep ms) tt [EvSleep ms].
Proof. eapply runs_silent_bind; [apply runs_blocking | apply runs_emit]. Qed.

Lemma runs_serial_write data : runs (serial_write data) tt [EvWrite data].
Proof. eapply runs_silent_bind; [apply runs_serial_call | apply runs_emit]. Qed.

Lemma runs_serial_flush : runs serial_flush tt [EvFlush].
Proof. eapply runs_silent_bind; [apply runs_serial_call | apply runs_emit]. Qed.

Lemma runs_require_connected : runs require_connected tt [].
Proof.
  intros w ((s & Hs & Ho) & _). exists [].
  unfold require_connected, bind, get. rewrite Hs, Ho, advance_nil. reflexivity.
Qed.

Lemma runs_send_bytes data : runs (send_bytes data) tt [EvWrite data; EvFlush].
Proof.
  unfold send_bytes.
  eapply runs_silent_bind; [apply runs_require_connected|].
  apply (runs_bind _ _ tt tt [EvWrite data] [EvFlush] (runs_serial_write data)).
  apply runs_serial_flush.
Qed.

Lemma runs_struct_pack_I v :
  (0 <= v < 2 ^ 32)%Z -> runs (struct_pack_I v) (le_bytes v) [].
Proof.
  intros Hv w _. exists []. now rewrite struct_pack_I_ok, advance_nil.
Qed.

Lemma runs_frame msg v :
  (0 <= v < 2 ^ 32)%Z ->
  runs (print msg ;;; bs <- struct_pack_I v ;; send_bytes bs ;;; sleep 100)
       tt (frame_events (le_bytes v)).
Proof.
  intros Hv.
  eapply runs_silent_bind; [apply runs_print|].
  eapply runs_silent_bind; [apply (runs_struct_pack_I v Hv)|].
  apply (runs_bind _ _ tt tt [EvWrite (le_bytes v); EvFlush] [EvSleep 100]
           (runs_send_bytes _)).
  apply runs_sleep.
Qed.

Lemma runs_send_magic_word : runs send_magic_word tt (frame_events (le_bytes MAGIC_WORD)).
Proof. apply runs_frame. unfold MAGIC_WORD. lia. Qed.

Lemma runs_for_each {A} (xs : list A) (body : A -> M unit) (f : A -> list event) :
  (forall x, In x xs -> runs (body x) tt (f x)) ->
  runs (for_each xs body) tt (flat_map f xs).
Proof.
  induction xs as [|x xs IH]; intros Hbody; simpl.
  - apply runs_ret.
  - eapply runs_bind; [apply Hbody; now left|].
    apply IH. intros y Hy. apply Hbody. now right.
Qed.

Lemma py_range_bound start stop step i : In i (py_range start stop step) -> i < stop.
Proof.
  intros Hi. apply list_elem_of_In, list_elem_of_lookup in Hi as [k Hk].
  now apply py_range_lookup in Hk.
Qed.

(** On a healthy line [send_program_data] returns normally, having
    written the chunks of its argument one [write] each. *)
Lemma runs_send_program_data data :
  runs (send_program_data data) tt (flat_map chunk_events (chunks_of data)).
Proof.
  unfold send_program_data.
  eapply runs_silent_bind; [apply runs_print|].
  rewrite <- (app_nil_r (flat_map _ _)).
  eapply runs_bind; [|apply runs_print].
  unfold chunks_of. rewrite flat_map_fmap.
  apply runs_for_each. intros i Hi. apply py_range_bound in Hi.
  unfold chunk_events.
  apply (runs_bind _ _ tt tt [EvWrite _; EvFlush] [EvSleep 10] (runs_send_bytes _)).
  destruct (length data) as [|n] eqn:Hn; [lia|].
  eapply runs_silent_bind.
  { unfold py_truediv. apply runs_ret. }
  eapply runs_silent_bind; [apply runs_print | apply runs_sleep].
Qed.

Lemma runs_transfer payload address :
  (Z.of_nat (length payload) < 2 ^ 32)%Z -> (0 <= address < 2 ^ 32)%Z ->
  runs (send_magic_word ;;;
        send_program_size (length payload) ;;;
        send_load_address address ;;;
        send_program_data payload)
       tt (transfer_events payload address).
Proof.
  intros Hlen Haddr.
  unfold transfer_events, header_events. rewrite <- !app_assoc.
  eapply runs_bind; [apply runs_send_magic_word|].
  eapply runs_bind; [apply runs_frame; lia|].
  eapply runs_bind; [apply runs_frame; lia|].
  apply runs_send_program_data.
Qed.

End Healthy.

Section HealthyUpload.

Ltac run_monad :=
  unfold try_except, receive_byte, require_connected, serial_read, serial_call,
    blocking, bind, get, print, modify, emit, raise, ret, handle; cbn.

(** On a healthy line the status read happens, and the verdict is [True]
    exactly for a received success code. *)
Lemma wait_for_response_healthy w :
  healthy w ->
  let r := wait_for_response w in
  fst r = Ok (bool_decide (incoming 1 w = [SUCCESS_CODE])) /\
  trace (snd r) = trace w ++ [EvRead 1 (incoming 1 w)].
Proof.
  intros ((s & Hs & Ho) & Hf & Hi).
  unfold wait_for_response, incoming, sent, writes. run_monad.
  rewrite Hs; cbn. rewrite Ho; cbn. rewrite Hi; cbn. rewrite Hf; cbn.
  match goal with |- context [take 1 (drop _ ?l)] =>
    destruct (drop (rx_pos w) l) as [|b rest]; cbn
  end.
  - split; reflexivity.
  - rewrite take_0. destruct (Z.eqb_spec b SUCCESS_CODE) as [-> | Hb]; cbn.
    + split; reflexivity.
    + rewrite bool_decide_eq_false_2 by congruence.
      destruct (b =? ERROR_CODE)%Z; cbn; split; reflexivity.
Qed.

Lemma load_binary_file_some filename img w :
  files w !! filename = Some img ->
  load_binary_file filename w =
    (Ok img, advance [] [MsgLoadedFile filename; MsgFileSize (length img)] w).
Proof.
  intros Hf. unfold load_binary_file, bind, get, print, modify, ret, advance.
  rewrite Hf. destruct w; cbn. now rewrite app_nil_r, <- app_assoc.
Qed.

Lemma upload_program_healthy w binary_file load_address img :
  healthy w ->
  files w !! binary_file = Some img ->
  let payload := pad_to_word_boundary img in
  let address := default DEFAULT_LOAD_ADDR load_address in
  (Z.of_nat (length payload) < 2 ^ 32)%Z ->
  (0 <= address < 2 ^ 32)%Z ->
  let got := status_bytes w payload address in
  let r := upload_program binary_file load_address w in
  fst r = Ok (bool_decide (got = [SUCCESS_CODE])) /\
  trace (snd r) = trace w ++ protocol_events payload address got.
Proof.
  intros Hw Hfile payload address Hlen Haddr got r. subst r got.
  unfold upload_program, try_except, status_bytes.
  fold address. rewrite bind_unfold, (load_binary_file_some _ _ _ Hfile).
  fold payload. rewrite !print_bind.
  match goal with |- context [_ (set_stdout ?o ?w0)] => set (w2 := set_stdout o w0) end.
  assert (Hw2 : healthy w2) by exact Hw.
  assert (Ht2 : trace w2 = trace w ++ []) by reflexivity.
  assert (Hd2 : device w2 = device w) by reflexivity.
  assert (Hr2 : rx_pos w2 = rx_pos w) by reflexivity.
  rewrite app_nil_r in Ht2. clearbody w2.
  rewrite regroup4, bind_unfold.
  destruct (runs_transfer payload address Hlen Haddr w2 Hw2) as [msgs ->].
  set (w3 := advance _ msgs w2).
  rewrite bind_unfold.
  destruct (wait_for_response_healthy w3 (healthy_advance _ _ _ Hw2)) as [Hres Htr].
  assert (Hin : incoming 1 w3 =
                take 1 (drop (rx_pos w) (device w (sent (trace w ++ transfer_events payload address))))).
  { unfold incoming. subst w3. cbn -[transfer_events]. now rewrite Hd2, Hr2, Ht2. }
  rewrite Hin in Hres, Htr.
  assert (Ht3 : trace w3 = trace w ++ transfer_events payload address).
  { subst w3. cbn -[transfer_events]. now rewrite Ht2. }
  clearbody w3.
  set (got := take 1 _) in *. set (ok := bool_decide (got = _)) in *.
  destruct (wait_for_response w3) as [[b|e] w4]; cbn [fst snd] in Hres, Htr;
    [|discriminate].
  inversion Hres; subst b.
  unfold protocol_events. rewrite app_assoc, <- Ht3, <- Htr.
  destruct ok; cbn; split; reflexivity.
Qed.

End HealthyUpload.

(** ** What was written *)

Section Writes.

Lemma writes_app t1 t2 : writes (t1 ++ t2) = writes t1 ++ writes t2.
Proof. apply omap_app. Qed.

Lemma writes_chunk_events chunks : writes (flat_map chunk_events chunks) = chunks.
Proof. induction chunks as [|c cs IH]; simpl; [reflexivity | now rewrite IH]. Qed.

Lemma writes_transfer_events payload address :
  writes (transfer_events payload address) =
  le_bytes MAGIC_WORD :: le_bytes (Z.of_nat (length payload)) :: le_bytes address ::
  chunks_of payload.
Proof.
  unfold transfer_events, header_events.
  rewrite !writes_app, writes_chunk_events. reflexivity.
Qed.

Lemma writes_protocol_events payload address got :
  writes (protocol_events payload address got) = writes (transfer_events payload address).
Proof. unfold protocol_events. rewrite writes_app. apply app_nil_r. Qed.

Lemma writes_prefix t1 t2 : t1 `prefix_of` t2 -> writes t1 `prefix_of` writes t2.
Proof. intros [k ->]. rewrite writes_app. now apply prefix_app_r. Qed.

Lemma drop_prefix {A} n (l1 l2 : list A) : l1 `prefix_of` l2 -> drop n l1 `prefix_of` drop n l2.
Proof. intros [k ->]. rewrite drop_app. now apply prefix_app_r. Qed.

Lemma concat_prefix {A} (l1 l2 : list (list A)) :
  l1 `prefix_of` l2 -> concat l1 `prefix_of` concat l2.
Proof. intros [k ->]. rewrite concat_app. now apply prefix_app_r. Qed.

Lemma data_written_transfer payload address :
  data_written (transfer_events payload address) = payload.
Proof.
  unfold data_written. rewrite writes_transfer_events. simpl drop.
  rewrite drop_0. apply chunks_of_concat.
Qed.

Lemma data_written_prefix evs payload address :
  evs `prefix_of` transfer_events payload address -> data_written evs `prefix_of` payload.
Proof.
  intros Hp. rewrite <- (data_written_transfer payload address).
  now apply concat_prefix, drop_prefix, writes_prefix.
Qed.

Lemma data_written_protocol payload address got :
  data_written (protocol_events payload address got) = payload.
Proof.
  unfold data_written. rewrite writes_protocol_events.
  apply (data_written_transfer payload address).
Qed.

Lemma transfer_events_no_read payload address size got :
  ~ In (EvRead size got) (transfer_events payload address).
Proof.
  unfold transfer_events, header_events, frame_events, chunk_events.
  rewrite !in_app_iff, in_flat_map. simpl.
  intros [[H | [H | H]] | (c & _ & H)];
    repeat (destruct H as [H | H]; [discriminate|]); contradiction.
Qed.

Lemma payload_of_file w binary_file img :
  files w !! binary_file = Some img -> payload_of w binary_file = pad_to_word_boundary img.
Proof. unfold payload_of. now intros ->. Qed.

Lemma chunks_of_single data : 0 < length data <= 64 -> chunks_of data = [data].
Proof.
  intros [Hpos Hle]. unfold chunks_of, chunk_size.
  rewrite py_range_cons by lia. rewrite py_range_nil by lia.
  simpl. unfold slice. rewrite drop_0, take_ge by lia. reflexivity.
Qed.

End Writes.

(** ** What an upload prints *)

Section Reports.

Ltac run_monad :=
  unfold try_except, receive_byte, require_connected, serial_read, serial_call,
    blocking, bind, get, print, modify, emit, raise, ret, handle; cbn.

Lemma require_connected_fails w :
  ~ connected w ->
  require_connected w = (Raise (Exception "Serial port not connected"), w).
Proof.
  intros Hn. unfold require_connected, bind, get. cbn.
  destruct (serial_port w) as [[[|] t]|] eqn:E; try reflexivity.
  exfalso. apply Hn. eexists. split; [exact E | reflexivity].
Qed.









End Reports.

(** * The claims *)

(** C1. For every image, the padded payload is the image followed by zero
    bytes only, and its length is the least multiple of 4 not below the
    image length.  The data bytes [upload_program] puts on the line are that
    payload: always a prefix of it, all of it in every upload that reports
    success, and all of it, chunk by chunk after the three header frames, in
    every upload on a connected line without faults whose length and address
    fit their frames, whatever the device then answers. *)
Theorem upload_program_payload_padded w binary_file load_address img :
  files w !! binary_file = Some img ->
  let payload := pad_to_word_boundary img in
  let address := default DEFAULT_LOAD_ADDR load_address in
  let r := upload_program binary_file load_address w in
  payload = img ++ replicate (length payload - length img) 0%Z /\
  length payload mod 4 = 0 /\
  length img <= length payload /\
  (forall m, m mod 4 = 0 -> length img <= m -> length payload <= m) /\
  exists evs, trace (snd r) = trace w ++ evs /\
    data_written evs `prefix_of` payload /\
    (fst r = Ok true -> data_written evs = payload) /\
    (healthy w -> (Z.of_nat (length payload) < 2 ^ 32)%Z -> (0 <= address < 2 ^ 32)%Z ->
       data_written evs = payload /\
       writes evs =
         le_bytes MAGIC_WORD :: le_bytes (Z.of_nat (length payload)) :: le_bytes address ::
         chunks_of payload /\
       concat (chunks_of payload) = payload).
Proof.
  intros Hfile payload address r.
  assert (Hlen : length payload = length img + pad_gap (length img))
    by apply pad_to_word_boundary_length.
  split; [|split; [|split; [|split]]].
  - unfold payload at 1. rewrite pad_to_word_boundary_eq. f_equal. f_equal. lia.
  - rewrite Hlen. apply pad_gap_total.
  - lia.
  - intros m Hm Hle. rewrite Hlen. now apply pad_gap_least.
  - destruct (upload_program_cases w binary_file load_address) as (evs & Ht & Hcases).
    cbv zeta in Hcases. rewrite (payload_of_file _ _ _ Hfile) in Hcases.
    fold payload address in Hcases. fold r in Ht, Hcases.
    exists evs. split; [exact Ht|].
    assert (Hh : healthy w -> (Z.of_nat (length payload) < 2 ^ 32)%Z ->
                 (0 <= address < 2 ^ 32)%Z ->
                 data_written evs = payload /\
                 writes evs =
                   le_bytes MAGIC_WORD :: le_bytes (Z.of_nat (length payload)) ::
                   le_bytes address :: chunks_of payload /\
                 concat (chunks_of payload) = payload).
    { intros Hw Hl Ha.
      destruct (upload_program_healthy w binary_file load_address img Hw Hfile Hl Ha)
        as [_ Htr].
      cbv zeta in Htr. fold payload address r in Htr.
      rewrite Ht in Htr. apply app_inv_head in Htr. rewrite Htr.
      rewrite data_written_protocol, writes_protocol_events, writes_transfer_events.
      split; [reflexivity|]. split; [reflexivity | apply chunks_of_concat]. }
    destruct Hcases as [(Hr & -> & _) | [(Hr & [Hp | (got & _ & ->)]) | (Hr & Hp)]].
    + rewrite data_written_protocol in *. split; [reflexivity|]. split; [auto | exact Hh].
    + split; [now apply data_written_prefix in Hp|].
      split; [rewrite Hr; discriminate | exact Hh].
    + rewrite data_written_protocol in *. split; [reflexivity|]. split; [auto | exact Hh].
    + split; [now apply data_written_prefix in Hp|].
      split; [rewrite Hr; discriminate | exact Hh].
Qed.

Lemma bench_healthy answer : healthy (bench answer).
Proof. split; [eexists; split; reflexivity | split; reflexivity]. Defined.

Lemma upload_program_payload_padded_witness :
  files (bench [0xFF%Z]) !! "prog.bin" = Some image10 /\
  exists evs,
    trace (snd (upload_program "prog.bin" None (bench [0xFF%Z]))) = evs /\
    data_written evs = (image10 ++ [0; 0])%Z /\
    drop 3 (writes evs) = [(image10 ++ [0; 0])%Z].
Proof.
  split; [reflexivity|].
  destruct (upload_program_payload_padded (bench [0xFF%Z]) "prog.bin" None image10
              ltac:(reflexivity)) as (_ & _ & _ & _ & evs & Ht & _ & _ & Hh).
  exists evs. split; [exact Ht|].
  assert (Hpad : pad_to_word_boundary image10 = (image10 ++ [0; 0])%Z)
    by (rewrite pad_to_word_boundary_eq; reflexivity).
  rewrite Hpad in Hh.
  destruct Hh as (Hd & Hws & _);
    [apply bench_healthy | vm_compute; reflexivity | vm_compute; split; [discriminate | reflexivity]|].
  split; [exact Hd|]. rewrite Hws. cbn [drop].
  rewrite chunks_of_single by (cbn; lia). reflexivity.
Defined.

(** C2. [send_program_data] cuts a payload of length P into ceil(P / 64)
    chunks, one [write] each: all but the last of 64 bytes, the last of
    P mod 64 bytes (64 when P is a positive multiple of 64), and the chunks
    concatenated in the order written are the payload. *)
Theorem send_program_data_chunking w data :
  healthy w ->
  let r := send_program_data data w in
  exists chunks,
    fst r = Ok tt /\
    trace (snd r) = trace w ++ flat_map chunk_events chunks /\
    writes (flat_map chunk_events chunks) = chunks /\
    length chunks = (length data + 63) / 64 /\
    length data <= 64 * length chunks < length data + 64 /\
    (forall k c, chunks !! k = Some c -> S k < length chunks -> length c = 64) /\
    (forall c, last chunks = Some c ->
               length c = if decide (length data mod 64 = 0) then 64 else length data mod 64) /\
    concat chunks = data.
Proof.
  intros Hw r. exists (chunks_of data).
  destruct (runs_send_program_data data w Hw) as [msgs Hrun].
  subst r. rewrite Hrun. cbn [fst snd].
  split; [reflexivity|]. split.
  { unfold advance. destruct w; reflexivity. }
  split; [apply writes_chunk_events|].
  split; [apply chunks_of_length|]. split.
  { rewrite chunks_of_length.
    pose proof (Nat.div_mod_eq (length data + 63) 64) as E.
    pose proof (Nat.mod_upper_bound (length data + 63) 64 ltac:(lia)) as Hr.
    lia. }
  split; [apply chunks_of_full|].
  split; [apply chunks_of_last | apply chunks_of_concat].
Qed.

Lemma send_program_data_chunking_witness :
  healthy (bench []) /\
  exists chunks,
    trace (snd (send_program_data (replicate 130 7%Z) (bench []))) =
      flat_map chunk_events chunks /\
    length chunks = 3.
Proof.
  split; [apply bench_healthy|].
  destruct (send_program_data_chunking (bench []) (replicate 130 7%Z) (bench_healthy []))
    as (chunks & _ & Ht & _ & Hn & _).
  exists chunks. split; [exact Ht | exact Hn].
Defined.

(** C3. Every run of [upload_program] puts the protocol on the line in
    order: what it appends to the trace is a prefix of magic-word frame,
    length frame, address frame, data chunks, one status read.  A run that
    reaches the status read, or that reports success, has performed every
    phase before it.  On a connected line without faults, with the file on
    disk and a length and address that fit their frames, every phase takes
    place: the run appends the whole sequence, ending in the one status
    read. *)
Theorem upload_program_frame_order w binary_file load_address :
  let r := upload_program binary_file load_address w in
  let payload := payload_of w binary_file in
  let address := default DEFAULT_LOAD_ADDR load_address in
  (exists evs got,
    trace (snd r) = trace w ++ evs /\
    evs `prefix_of` protocol_events payload address got /\
    (forall size bs, In (EvRead size bs) evs -> evs = protocol_events payload address got) /\
    (fst r = Ok true -> evs = protocol_events payload address got)) /\
  (healthy w -> is_Some (files w !! binary_file) ->
   (Z.of_nat (length payload) < 2 ^ 32)%Z -> (0 <= address < 2 ^ 32)%Z ->
   trace (snd r) = trace w ++ protocol_events payload address (status_bytes w payload address)) /\
  (forall got,
     protocol_events payload address got =
       [EvWrite (le_bytes MAGIC_WORD); EvFlush; EvSleep 100;
        EvWrite (le_bytes (Z.of_nat (length payload))); EvFlush; EvSleep 100;
        EvWrite (le_bytes address); EvFlush; EvSleep 100] ++
       flat_map (fun chunk => [EvWrite chunk; EvFlush; EvSleep 10]) (chunks_of payload) ++
       [EvRead 1 got]).
Proof.
  cbv zeta. split; [|split].
  2:{ intros Hw [img Hfile] Hl Ha.
      rewrite (payload_of_file _ _ _ Hfile) in *.
      exact (proj2 (upload_program_healthy w binary_file load_address img Hw Hfile Hl Ha)). }
  2:{ intros got. unfold protocol_events, transfer_events, header_events, frame_events.
      rewrite <- !app_assoc. reflexivity. }
  destruct (upload_program_cases w binary_file load_address) as (evs & Ht & Hcases).
  cbv zeta in Hcases. exists evs.
  assert (Hpre : forall got, evs `prefix_of` transfer_events (payload_of w binary_file)
                                   (default DEFAULT_LOAD_ADDR load_address) ->
                 forall r : result bool, r <> Ok true ->
                 evs `prefix_of` protocol_events (payload_of w binary_file)
                       (default DEFAULT_LOAD_ADDR load_address) got /\
                 (forall size bs, In (EvRead size bs) evs ->
                    evs = protocol_events (payload_of w binary_file)
                            (default DEFAULT_LOAD_ADDR load_address) got) /\
                 (r = Ok true -> evs = protocol_events (payload_of w binary_file)
                            (default DEFAULT_LOAD_ADDR load_address) got)).
  { intros got Hp r Hr. split; [now apply prefix_app_r|]. split; [|contradiction].
    intros size bs Hin. destruct Hp as [k Hk].
    exfalso. apply (transfer_events_no_read (payload_of w binary_file)
                      (default DEFAULT_LOAD_ADDR load_address) size bs).
    rewrite Hk. apply in_app_iff. now left. }
  destruct Hcases as [(Hr & -> & _) | [(Hr & [Hp | (got & _ & ->)]) | (Hr & Hp)]].
  - exists [SUCCESS_CODE]. auto.
  - exists []. split; [exact Ht|]. apply Hpre; [exact Hp | rewrite Hr; discriminate].
  - exists got. auto.
  - exists []. split; [exact Ht|]. apply Hpre; [exact Hp | rewrite Hr; discriminate].
Qed.

Lemma upload_program_frame_order_witness :
  healthy (bench [0xFF%Z]) /\
  trace (snd (upload_program "prog.bin" None (bench [0xFF%Z]))) =
    [EvWrite [0xEF; 0xBE; 0xAD; 0xDE]; EvFlush; EvSleep 100;
     EvWrite [12; 0; 0; 0]; EvFlush; EvSleep 100;
     EvWrite [0; 0x10; 0; 0]; EvFlush; EvSleep 100;
     EvWrite (image10 ++ [0; 0]); EvFlush; EvSleep 10;
     EvRead 1 [0xFF]]%Z.
Proof.
  split; [apply bench_healthy|].
  destruct (upload_program_frame_order (bench [0xFF%Z]) "prog.bin" None) as (_ & Hh & Hshape).
  assert (Hpad : payload_of (bench [0xFF%Z]) "prog.bin" = (image10 ++ [0; 0])%Z).
  { rewrite (payload_of_file _ _ image10) by reflexivity.
    rewrite pad_to_word_boundary_eq. reflexivity. }
  rewrite Hpad in Hh, Hshape.
  rewrite Hh;
    [| apply bench_healthy | eexists; reflexivity | vm_compute; reflexivity
     | vm_compute; split; [discriminate | reflexivity]].
  rewrite Hshape, chunks_of_single by (cbn; lia). reflexivity.
Defined.

(** ** The status read *)

(** C4, as stated, fails: a rejection (0xFF), a timeout and a stray byte all
    come back from [wait_for_response] as the same value [False]. *)
Lemma status_results_collapse : ~ status_results_distinct.
Proof.
  unfold status_results_distinct. intros (_ & _ & _ & Hdiff & _).
  apply Hdiff. vm_compute. reflexivity.
Qed.

(** C4, amended. [wait_for_response] is total on every outcome of the
    status read and returns a boolean: [True] exactly when the byte 0xAA
    arrives; 0xFF, no byte before the timeout, any other byte and a failing
    port all give [False].  The outcomes are told apart only by the line
    printed. *)
Theorem wait_for_response_verdict w :
  connected w ->
  interrupts w = [] ->
  let r := wait_for_response w in
  let got := incoming 1 w in
  let said := stdout (snd r) in
  (fst r = Ok true \/ fst r = Ok false) /\
  (fst r = Ok true <-> line_fault w = false /\ got = [SUCCESS_CODE]) /\
  (line_fault w = false ->
     (got = [SUCCESS_CODE] -> said = stdout w ++ [MsgWaiting; MsgUploadSuccessful]) /\
     (got = [ERROR_CODE] -> said = stdout w ++ [MsgWaiting; MsgUploadFailed]) /\
     (got = [] -> said = stdout w ++
                    [MsgWaiting; MsgErrorWaiting (Exception "Timeout waiting for response")]) /\
     (forall b, got = [b] -> b <> SUCCESS_CODE -> b <> ERROR_CODE ->
                said = stdout w ++ [MsgWaiting; MsgUnexpectedResponse b])) /\
  (line_fault w = true -> said = stdout w ++ [MsgWaiting; MsgErrorWaiting SerialException]).
Proof.
  intros (s & Hs & Ho) Hi. cbv zeta.
  unfold wait_for_response, incoming, line_fault, sent, writes.
  unfold try_except, receive_byte, require_connected, serial_read, serial_call,
    blocking, bind, get, print, modify, emit, raise, ret, handle; cbn.
  rewrite Hs; cbn. rewrite Ho; cbn. rewrite Hi; cbn.
  destruct (link_faults w) as [|[|] lf]; cbn.
  2:{ rewrite <- app_assoc. repeat split; auto; try discriminate.
      intros [? _]; discriminate. }
  all: match goal with |- context [take 1 (drop _ ?l)] =>
         destruct (drop (rx_pos w) l) as [|b rest]; cbn
       end.
  all: rewrite <- ?app_assoc; cbn.
  1,3: repeat split; auto; try discriminate; intros [_ ?]; discriminate.
  all: rewrite take_0.
  all: destruct (Z.eqb_spec b SUCCESS_CODE) as [-> | Hb]; cbn.
  1,3: rewrite <- ?app_assoc; repeat split; auto; try discriminate;
       intros b' Hb'; inversion Hb'; congruence.
  all: destruct (Z.eqb_spec b ERROR_CODE) as [-> | Hb']; cbn.
  all: rewrite <- ?app_assoc; repeat split; auto; try discriminate;
       try (intros [_ Hx]; inversion Hx; congruence);
       try (intros Hx; inversion Hx; congruence);
       try (intros b'' Hx; inversion Hx; subst; congruence).
  all: intros b0 Hx _ _; inversion Hx; reflexivity.
Qed.

Lemma wait_for_response_verdict_witness :
  connected (bench [0xFF%Z]) /\ interrupts (bench [0xFF%Z]) = [] /\
  (fst (wait_for_response (bench [0xFF%Z])) = Ok true \/
   fst (wait_for_response (bench [0xFF%Z])) = Ok false).
Proof.
  split; [eexists; split; reflexivity|]. split; [reflexivity|].
  exact (proj1 (wait_for_response_verdict (bench [0xFF%Z])
                  (ex_intro _ _ (conj eq_refl eq_refl)) eq_refl)).
Defined.

(** ** The verdict of an upload *)




(** ** A 10-byte image at 0x1000 *)

(** C6, as stated, fails: the one data chunk carries the whole padded
    image, 12 bytes, not 4. *)
Lemma ten_byte_upload_chunk_not_4 : ~ ten_byte_upload_as_claimed simulated_bench.
Proof.
  intros (_ & magic & size & address & chunk & Hw & _ & _ & _ & Hc).
  vm_compute in Hw. inversion Hw; subst. discriminate Hc.
Qed.

(** C6, amended. Against a transport that answers 0xAA after the frame
    sequence, uploading a 10-byte image at 0x1000 reports success, and the
    writes are exactly three 4-byte frames (magic word, length 12, address
    0x1000) followed by one 12-byte data chunk: the image and two zero
    bytes. *)
Theorem upload_ten_byte_image w binary_file img :
  healthy w ->
  files w !! binary_file = Some img ->
  length img = 10 ->
  status_bytes w (img ++ [0; 0]%Z) 0x1000 = [SUCCESS_CODE] ->
  let r := upload_program binary_file (Some 0x1000%Z) w in
  fst r = Ok true /\
  exists evs,
    trace (snd r) = trace w ++ evs /\
    writes evs = [[0xEF; 0xBE; 0xAD; 0xDE]; [12; 0; 0; 0]; [0; 0x10; 0; 0]; img ++ [0; 0]]%Z /\
    length (img ++ [0; 0]%Z) = 12.
Proof.
  intros Hw Hfile Hlen Hans r.
  assert (Hpad : pad_to_word_boundary img = img ++ [0; 0]%Z).
  { rewrite pad_to_word_boundary_eq, Hlen. reflexivity. }
  assert (Hplen : length (img ++ [0; 0]%Z) = 12) by (rewrite length_app, Hlen; reflexivity).
  destruct (upload_program_healthy w binary_file (Some 0x1000%Z) img Hw Hfile) as [Hres Htr].
  - rewrite Hpad, Hplen. reflexivity.
  - cbn. lia.
  - cbv zeta in Hres, Htr. fold r in Hres, Htr.
    rewrite Hpad in Hres, Htr. cbn [from_option id] in Hres, Htr.
    rewrite Hans in Hres, Htr. split.
    + rewrite Hres. now rewrite bool_decide_eq_true_2.
    + eexists. split; [exact Htr|]. split; [|exact Hplen].
      rewrite writes_protocol_events, writes_transfer_events, Hplen.
      rewrite chunks_of_single by lia. reflexivity.
Qed.

Lemma upload_ten_byte_image_witness :
  healthy simulated_bench /\
  fst (upload_program "prog.bin" (Some 0x1000%Z) simulated_bench) = Ok true.
Proof.
  assert (H : healthy simulated_bench)
    by (split; [eexists; split; reflexivity | split; reflexivity]).
  split; [exact H|].
  exact (proj1 (upload_ten_byte_image simulated_bench "prog.bin" image10 H
                  ltac:(reflexivity) ltac:(reflexivity) ltac:(vm_compute; reflexivity))).
Defined.

(** ** Header frames *)

(** C7. For every unsigned 32-bit value [struct.pack('<I', v)] succeeds
    and yields its 4-byte little-endian encoding: four bytes that read back,
    least significant first, as [v].  Each header frame is that encoding:
    it is the one thing [send_program_size] and [send_load_address] write,
    and on a healthy line they do write it; the magic-word frame is always
    EF BE AD DE. *)
Theorem header_frames_little_endian (v : Z) :
  (0 <= v < 2 ^ 32)%Z ->
  length (le_bytes v) = 4 /\
  (forall b, In b (le_bytes v) -> (0 <= b < 256)%Z) /\
  le_value (le_bytes v) = v /\
  (forall w, struct_pack_I v w = (Ok (le_bytes v), w)) /\
  emits (send_program_size (Z.to_nat v)) (frame_events (le_bytes v)) (fun _ => True) /\
  emits (send_load_address v) (frame_events (le_bytes v)) (fun _ => True) /\
  runs (send_program_size (Z.to_nat v)) tt (frame_events (le_bytes v)) /\
  runs (send_load_address v) tt (frame_events (le_bytes v)) /\
  le_bytes MAGIC_WORD = [0xEF; 0xBE; 0xAD; 0xDE]%Z /\
  emits send_magic_word (frame_events [0xEF; 0xBE; 0xAD; 0xDE]%Z) (fun _ => True) /\
  runs send_magic_word tt (frame_events [0xEF; 0xBE; 0xAD; 0xDE]%Z).
Proof.
  intros Hv.
  assert (Hnat : Z.of_nat (Z.to_nat v) = v) by lia.
  split; [reflexivity|].
  split; [apply le_bytes_range|].
  split; [now apply le_value_le_bytes|].
  split; [intros w; now apply struct_pack_I_ok|].
  split; [rewrite <- Hnat at 2; apply emits_send_program_size|].
  split; [apply emits_send_load_address|].
  split; [rewrite <- Hnat at 2; apply runs_frame; lia|].
  split; [now apply runs_frame|].
  split; [reflexivity|].
  split; [apply emits_send_magic_word | apply runs_send_magic_word].
Qed.

Lemma header_frames_little_endian_witness :
  (0 <= 0x1000 < 2 ^ 32)%Z /\ le_value (le_bytes 0x1000) = 0x1000%Z.
Proof.
  split; [lia|].
  exact (proj1 (proj2 (proj2 (header_frames_little_endian 0x1000 ltac:(lia))))).
Defined.

(** ** A port that cannot be opened *)

Ltac run_main :=
  unfold main, connect, serial_Serial, disconnect, sys_exit, try_finally, try_except,
    blocking, bind, get, print, modify, emit, raise, ret, handle; cbn.

(** C8. When the port cannot be opened, [main] exits with status 1
    without a single operation on the line: no magic word, no header, no
    data; and [connect] does not answer [True].  With valid settings (no
    negative baud rate or timeout, which the constructor rejects with
    [ValueError] before it tries the port) and no Ctrl-C, [connect] reports
    the failure itself: it answers [False] and prints the connect error. *)
Theorem main_transport_unavailable (a : args) (w : world) :
  arg_port a ∉ ports w ->
  let loader := init_loader (arg_port a) (arg_baud a) (arg_timeout a) w in
  let r := main a w in
  fst r = Raise (SystemExit 1) /\
  exit_status (fst r) = 1%Z /\
  trace (snd r) = trace w /\
  serial_port (snd r) = None /\
  fst (connect loader) <> Ok true /\
  trace (snd (connect loader)) = trace w /\
  ((0 <= arg_baud a)%Z -> (0 <= arg_timeout a)%Z -> interrupts w = [] ->
   fst (connect loader) = Ok false /\
   stdout (snd (connect loader)) =
     stdout w ++ [MsgConnectError (arg_port a) SerialException] /\
   stdout (snd r) = stdout w ++ [MsgConnectError (arg_port a) SerialException]).
Proof.
  intros Hport. cbv zeta. run_main.
  destruct (Z.ltb_spec (arg_baud a) 0) as [Hb | Hb]; cbn;
    [repeat split; auto; try discriminate; intros; lia|].
  destruct (Z.ltb_spec (arg_timeout a) 0) as [Ht | Ht]; cbn;
    [repeat split; auto; try discriminate; intros; lia|].
  destruct (interrupts w) as [|[|] li]; cbn;
    destruct (decide (arg_port a ∈ ports w)) as [Hin | _]; try contradiction; cbn;
    repeat split; auto; try discriminate;
    intros _ _ Hx; try discriminate Hx; repeat split; reflexivity.
Qed.

Lemma main_transport_unavailable_witness :
  let a := mkArgs "prog.bin" "COM9" 115200 0x1000 false 5 in
  (arg_port a ∉ ports (bench [])) /\
  fst (main a (bench [])) = Raise (SystemExit 1) /\
  trace (snd (main a (bench []))) = [] /\
  fst (connect (init_loader "COM9" 115200 5 (bench []))) = Ok false /\
  stdout (snd (main a (bench []))) = [MsgConnectError "COM9" SerialException].
Proof.
  cbv zeta.
  assert (H : "COM9" ∉ ports (bench [])) by (vm_compute; intros H; inversion H).
  split; [exact H|].
  pose proof (main_transport_unavailable (mkArgs "prog.bin" "COM9" 115200 0x1000 false 5)
                (bench []) H) as (Hr & _ & Ht & _ & _ & _ & Hv).
  cbv zeta in Hv.
  destruct Hv as (Hc & _ & Hout);
    [vm_compute; discriminate | vm_compute; discriminate | reflexivity|].
  split; [exact Hr|]. split; [exact Ht|]. split; [exact Hc | exact Hout].
Defined.

(** ** The connection test *)

(** C9, as stated, fails: the probe is the four bytes of "AT\r\n". *)
Lemma probe_not_2_bytes : ~ probe_as_claimed (bench []).
Proof.
  intros (_ & probe & Hw & Hlen).
  vm_compute in Hw. inversion Hw; subst. discriminate Hlen.
Qed.

(** C9, amended. On a working line the connection test writes exactly one
    probe, the 4 bytes 41 54 0D 0A, then reads up to 100 bytes once, and it
    passes whether or not anything came back. *)
Theorem test_connection_probe w :
  healthy w ->
  let r := test_connection w in
  let reply := take 100 (drop (rx_pos w) (device w (sent (trace w) ++ test_data))) in
  fst r = Ok true /\
  trace (snd r) = trace w ++ [EvWrite [0x41; 0x54; 0x0D; 0x0A]%Z; EvFlush; EvSleep 500;
                              EvRead 100 reply] /\
  writes [EvWrite test_data; EvFlush; EvSleep 500; EvRead 100 reply] = [test_data] /\
  length test_data = 4.
Proof.
  intros ((s & Hs & Ho) & Hf & Hi). cbv zeta.
  unfold test_connection, send_bytes, require_connected, serial_write, serial_flush, sleep,
    set_port_timeout, serial_read, serial_call, try_except, blocking, bind, get, print,
    modify, emit, raise, ret, handle; cbn.
  repeat (first [rewrite Hs | rewrite Ho | rewrite Hi | rewrite Hf]; cbn).
  unfold sent, writes. rewrite !omap_app, !concat_app. cbn. rewrite !app_nil_r.
  rewrite <- !app_assoc. cbn.
  destruct (length (take 100 _)); cbn; repeat split; reflexivity.
Qed.

Lemma test_connection_probe_witness :
  healthy (bench []) /\ fst (test_connection (bench [])) = Ok true.
Proof.
  split; [apply bench_healthy|].
  exact (proj1 (test_connection_probe (bench []) (bench_healthy []))).
Defined.

(** ** An empty image *)

(** C10. For an image of length 0 the upload still sends the magic-word
    frame, a length frame encoding 0 and the address frame, then goes
    straight to the status read without writing a chunk; and
    [send_program_data] on the empty payload returns normally in every
    world without touching the line: its loop body, and with it the
    division by the payload length, is never entered. *)
Theorem upload_empty_image w binary_file load_address :
  healthy w ->
  files w !! binary_file = Some [] ->
  let address := default DEFAULT_LOAD_ADDR load_address in
  (0 <= address < 2 ^ 32)%Z ->
  let r := upload_program binary_file load_address w in
  (forall w0, fst (send_program_data [] w0) = Ok tt /\
              trace (snd (send_program_data [] w0)) = trace w0) /\
  chunks_of (pad_to_word_boundary []) = [] /\
  exists got,
    fst r = Ok (bool_decide (got = [SUCCESS_CODE])) /\
    trace (snd r) = trace w ++
      frame_events [0xEF; 0xBE; 0xAD; 0xDE]%Z ++
      frame_events [0; 0; 0; 0]%Z ++
      frame_events (le_bytes address) ++
      [EvRead 1 got].
Proof.
  intros Hw Hfile address Haddr r.
  split; [intros w0; split; reflexivity|].
  split; [reflexivity|].
  destruct (upload_program_healthy w binary_file load_address [] Hw Hfile) as [Hres Htr].
  - reflexivity.
  - exact Haddr.
  - eexists. split; [exact Hres|].
    etransitivity; [exact Htr | reflexivity].
Qed.

Lemma upload_empty_image_witness :
  let w := mkWorld "COM3" 115200 5 (Some (mkSerial true 5)) {["empty.bin" := []]} {["COM3"]}
                   (fun _ => [0xAA%Z]) 0 [] [] [] [] in
  healthy w /\
  writes (trace (snd (upload_program "empty.bin" None w))) =
    [[0xEF; 0xBE; 0xAD; 0xDE]; [0; 0; 0; 0]; [0; 0x10; 0; 0]]%Z.
Proof.
  cbv zeta.
  set (w := mkWorld "COM3" 115200 5 (Some (mkSerial true 5)) {["empty.bin" := []]} {["COM3"]}
                    (fun _ => [0xAA%Z]) 0 [] [] [] []).
  assert (H : healthy w) by (split; [eexists; split; reflexivity | split; reflexivity]).
  split; [exact H|].
  destruct (upload_empty_image w "empty.bin" None H ltac:(reflexivity)
              ltac:(unfold DEFAULT_LOAD_ADDR; simpl; lia))
    as (_ & _ & got & _ & Ht).
  rewrite Ht. reflexivity.
Defined.

(** * Further properties of the loader *)

(** ** Frame conditions *)

Section Keeps.

Lemma keeps_ret {A} (a : A) : keeps (ret a).
Proof. intros w. auto. Qed.

Lemma keeps_raise {A} (e : exn) : keeps (@raise A e).
Proof. intros w. auto. Qed.

Lemma keeps_bind {A B} (m : M A) (k : A -> M B) :
  keeps m -> (forall a, keeps (k a)) -> keeps (bind m k).
Proof.
  intros Hm Hk w. unfold bind. specialize (Hm w).
  destruct (m w) as [[a | e] w1]; cbn [fst snd] in *; [|exact Hm].
  specialize (Hk a w1). destruct Hm as (<- & <- & <-). exact Hk.
Qed.

Lemma keeps_handle {A} (clauses : list ((exn -> bool) * (exn -> M A))) e :
  (forall c h e', In (c, h) clauses -> keeps (h e')) -> keeps (handle clauses e).
Proof.
  induction clauses as [|[c h] rest IH]; intros Hall; cbn [handle].
  - apply keeps_raise.
  - destruct (c e).
    + apply (Hall c h e). now left.
    + apply IH. intros c' h' e' Hin. apply (Hall c' h' e'). now right.
Qed.

Lemma keeps_try_except {A} (body : M A) clauses :
  keeps body -> (forall c h e, In (c, h) clauses -> keeps (h e)) ->
  keeps (try_except body clauses).
Proof.
  intros Hb Hh w. unfold try_except. specialize (Hb w).
  destruct (body w) as [[a | e] w1]; cbn [fst snd] in *; [exact Hb|].
  destruct Hb as (<- & <- & <-). apply keeps_handle. exact Hh.
Qed.

Lemma keeps_for_each {A} (xs : list A) (body : A -> M unit) :
  (forall x, keeps (body x)) -> keeps (for_each xs body).
Proof.
  intros Hb. induction xs as [|x xs IH]; cbn [for_each].
  - apply keeps_ret.
  - apply keeps_bind; [apply Hb | intros _; exact IH].
Qed.

Lemma keeps_get {A} (f : world -> A) : keeps (get f).
Proof. intros w. auto. Qed.

Lemma keeps_print msg : keeps (print msg).
Proof. intros w. auto. Qed.

Lemma keeps_emit e : keeps (emit e).
Proof. intros w. auto. Qed.

Lemma keeps_blocking : keeps blocking.
Proof. intros w. unfold blocking. destruct (interrupts w) as [|[|] l]; auto. Qed.

Lemma keeps_serial_call : keeps serial_call.
Proof.
  apply keeps_bind; [apply keeps_blocking|]. intros _ w.
  destruct (link_faults w) as [|[|] l]; auto.
Qed.

Lemma keeps_sleep ms : keeps (sleep ms).
Proof. apply keeps_bind; [apply keeps_blocking | intros _; apply keeps_emit]. Qed.

Lemma keeps_require_connected : keeps require_connected.
Proof.
  intros w. unfold require_connected, bind, get. cbn.
  destruct (serial_port w) as [[[|] t]|] eqn:E; cbn; rewrite ?E; auto.
Qed.

Lemma keeps_send_bytes data : keeps (send_bytes data).
Proof.
  unfold send_bytes, serial_write, serial_flush.
  apply keeps_bind; [apply keeps_require_connected|]. intros _.
  apply keeps_bind.
  - apply keeps_bind; [apply keeps_serial_call | intros _; apply keeps_emit].
  - intros _. apply keeps_bind; [apply keeps_serial_call | intros _; apply keeps_emit].
Qed.

Lemma keeps_serial_read size : keeps (serial_read size).
Proof.
  unfold serial_read.
  apply keeps_bind; [apply keeps_serial_call|]. intros _.
  apply keeps_bind; [apply keeps_get|]. intros w0.
  apply keeps_bind; [intros w; auto|]. intros _.
  apply keeps_bind; [apply keeps_emit | intros _; apply keeps_ret].
Qed.

Lemma keeps_receive_byte : keeps receive_byte.
Proof.
  unfold receive_byte.
  apply keeps_bind; [apply keeps_require_connected|]. intros _.
  apply keeps_bind; [apply keeps_serial_read|]. intros [|b rest];
    [apply keeps_raise | apply keeps_ret].
Qed.

Lemma keeps_struct_pack_I v : keeps (struct_pack_I v).
Proof. unfold struct_pack_I. destruct (_ && _); [apply keeps_ret | apply keeps_raise]. Qed.

Lemma keeps_frame msg v :
  keeps (print msg ;;; bs <- struct_pack_I v ;; send_bytes bs ;;; sleep 100).
Proof.
  apply keeps_bind; [apply keeps_print|]. intros _.
  apply keeps_bind; [apply keeps_struct_pack_I|]. intros bs.
  apply keeps_bind; [apply keeps_send_bytes | intros _; apply keeps_sleep].
Qed.

Lemma keeps_py_truediv a b : keeps (py_truediv a b).
Proof. destruct b; [apply keeps_raise | apply keeps_ret]. Qed.

Lemma keeps_send_program_data data : keeps (send_program_data data).
Proof.
  unfold send_program_data.
  apply keeps_bind; [apply keeps_print|]. intros _.
  apply keeps_bind; [|intros _; apply keeps_print].
  apply keeps_for_each. intros i.
  apply keeps_bind; [apply keeps_send_bytes|]. intros _.
  apply keeps_bind; [apply keeps_py_truediv|]. intros ratio.
  apply keeps_bind; [apply keeps_print | intros _; apply keeps_sleep].
Qed.

Lemma keeps_wait_for_response : keeps wait_for_response.
Proof.
  unfold wait_for_response.
  apply keeps_bind; [apply keeps_print|]. intros _.
  apply keeps_try_except.
  - apply keeps_bind; [apply keeps_receive_byte|]. intros response.
    destruct (_ =? _)%Z; [|destruct (_ =? _)%Z];
      (apply keeps_bind; [apply keeps_print | intros _; apply keeps_ret]).
  - intros c h e [Hin | []]. inversion Hin; subst.
    apply keeps_bind; [apply keeps_print | intros _; apply keeps_ret].
Qed.

Lemma keeps_load_binary_file filename : keeps (load_binary_file filename).
Proof.
  unfold load_binary_file.
  apply keeps_bind; [apply keeps_get|]. intros fs.
  destruct (fs !! filename); [|apply keeps_raise].
  repeat (apply keeps_bind; [apply keeps_print | intros _]). apply keeps_ret.
Qed.

(** [upload_program] never opens, closes or replaces the port and never
    touches the files. *)
Lemma keeps_upload_program binary_file load_address :
  keeps (upload_program binary_file load_address).
Proof.
  unfold upload_program. apply keeps_try_except.
  - apply keeps_bind; [apply keeps_load_binary_file|]. intros img.
    repeat (apply keeps_bind; [apply keeps_print | intros _]).
    apply keeps_bind; [apply keeps_frame|]. intros _.
    apply keeps_bind; [apply keeps_frame|]. intros _.
    apply keeps_bind; [apply keeps_frame|]. intros _.
    apply keeps_bind; [apply keeps_send_program_data|]. intros _.
    apply keeps_bind; [apply keeps_wait_for_response|]. intros [|];
      repeat (apply keeps_bind; [apply keeps_print | intros _]); apply keeps_ret.
  - intros c h e [Hin | []]. inversion Hin; subst.
    apply keeps_bind; [apply keeps_print | intros _; apply keeps_ret].
Qed.

End Keeps.

(** ** What can escape *)

Section Escapes.


Lemma never_exits_ret {A} (a : A) : never_exits (ret a).
Proof. intros w. exact I. Qed.












End Escapes.

(** ** Connecting and disconnecting *)

Section Session.

Lemma disconnect_connected w s :
  serial_port w = Some s -> is_open s = true ->
  disconnect w =
    (Ok tt, set_stdout (stdout w ++ [MsgDisconnected])
              (set_serial_port (Some (mkSerial false (ser_timeout s)))
                 (set_trace (trace w ++ [EvClose]) w))).
Proof.
  intros Hs Ho. unfold disconnect, bind, get. cbn. rewrite Hs, Ho. reflexivity.
Qed.

Lemma disconnect_not_connected w : ~ connected w -> disconnect w = (Ok tt, w).
Proof.
  intros Hn. unfold disconnect, bind, get. cbn.
  destruct (serial_port w) as [[[|] t]|] eqn:E; try reflexivity.
  exfalso. apply Hn. eexists. split; [exact E | reflexivity].
Qed.

Lemma connected_dec w : connected w \/ ~ connected w.
Proof.
  unfold connected. destruct (serial_port w) as [[[|] t]|].
  - left. eexists. split; reflexivity.
  - right. intros (s & Hs & Ho). inversion Hs; subst. discriminate.
  - right. intros (s & Hs & _). discriminate.
Qed.

Lemma disconnect_ok w :
  fst (disconnect w) = Ok tt /\ ~ connected (snd (disconnect w)).
Proof.
  destruct (connected_dec w) as [(s & Hs & Ho) | Hn].
  - rewrite (disconnect_connected w s Hs Ho). cbn [fst snd].
    split; [reflexivity|]. intros (s' & Hs' & Ho'). cbn in Hs'.
    inversion Hs'; subst. discriminate.
  - rewrite (disconnect_not_connected w Hn). auto.
Qed.

(** X1. [disconnect] never fails and always leaves the loader without an
    open port; it closes the port exactly when one is open, and a second
    call does nothing at all. *)
Theorem disconnect_closes_once w :
  let r := disconnect w in
  fst r = Ok tt /\
  ~ connected (snd r) /\
  disconnect (snd r) = (Ok tt, snd r) /\
  files (snd r) = files w /\
  (connected w -> trace (snd r) = trace w ++ [EvClose]) /\
  (~ connected w -> snd r = w).
Proof.
  cbv zeta. destruct (connected_dec w) as [(s & Hs & Ho) | Hn].
  - rewrite (disconnect_connected w s Hs Ho). cbn [fst snd].
    assert (Hc : ~ connected (set_stdout (stdout w ++ [MsgDisconnected])
              (set_serial_port (Some (mkSerial false (ser_timeout s)))
                 (set_trace (trace w ++ [EvClose]) w)))).
    { intros (s' & Hs' & Ho'). cbn in Hs'. inversion Hs'; subst. discriminate. }
    split; [reflexivity|]. split; [exact Hc|].
    split; [now apply disconnect_not_connected|].
    split; [reflexivity|]. split; [reflexivity|].
    intros Hn. exfalso. apply Hn. now exists s.
  - rewrite (disconnect_not_connected w Hn). cbn [fst snd].
    split; [reflexivity|]. split; [exact Hn|].
    split; [now apply disconnect_not_connected|].
    split; [reflexivity|]. split; [contradiction | reflexivity].
Qed.

Lemma try_finally_disconnect {A} (body : M A) w :
  fst (try_finally body disconnect w) = fst (body w) /\
  snd (try_finally body disconnect w) = snd (disconnect (snd (body w))).
Proof.
  unfold try_finally. destruct (body w) as [r w1]. cbn [fst snd].
  pose proof (disconnect_ok w1) as (Hok & _).
  destruct (disconnect w1) as [[[]|e] w2]; cbn [fst snd] in *; [auto | discriminate].
Qed.


End Session.

(** ** The exit status of [main] *)

Section MainStatus.


Lemma main_handlers_ok (body : M unit) w :
  fst (try_except body
         [(is_KeyboardInterrupt, fun _ => print MsgInterrupted ;;; sys_exit 1);
          (is_Exception, fun e => print (MsgUnexpectedError e) ;;; sys_exit 1)] w) = Ok tt ->
  try_except body
    [(is_KeyboardInterrupt, fun _ => print MsgInterrupted ;;; sys_exit 1);
     (is_Exception, fun e => print (MsgUnexpectedError e) ;;; sys_exit 1)] w = body w /\
  fst (body w) = Ok tt.
Proof.
  unfold try_except. destruct (body w) as [[[] | e] w1]; cbn [fst handle]; [auto|].
  destruct (is_KeyboardInterrupt e); [discriminate|].
  destruct (is_Exception e); discriminate.
Qed.



Lemma connect_true w w1 :
  connect w = (Ok true, w1) ->
  port w ∈ ports w /\
  serial_port w1 = Some (mkSerial true (timeout w)) /\
  trace w1 = trace w ++ [EvOpen (port w) (baud_rate w)] /\
  files w1 = files w.
Proof.
  unfold connect, serial_Serial, try_except, blocking, bind, get, print, modify, emit,
    raise, ret, handle. cbn.
  destruct (baud_rate w <? 0)%Z; cbn; [discriminate|].
  destruct (timeout w <? 0)%Z; cbn; [discriminate|].
  destruct (interrupts w) as [|[|] li]; cbn;
    destruct (decide (port w ∈ ports w)) as [Hin | Hout]; cbn;
    intros H; inversion H; subst; cbn; auto.
Qed.

(** X4. In upload mode [main] exits with status 0 only after a complete
    session: the port was opened, the whole protocol for the padded image
    went over the line, the success code was read, and the port was closed
    again. *)
Theorem main_upload_success (a : args) (w : world) :
  arg_test a = false ->
  fst (main a w) = Ok tt ->
  arg_port a ∈ ports w /\
  is_Some (files w !! arg_binary_file a) /\
  trace (snd (main a w)) =
    trace w ++ [EvOpen (arg_port a) (arg_baud a)] ++
    protocol_events (payload_of w (arg_binary_file a)) (arg_address a) [SUCCESS_CODE] ++
    [EvClose].
Proof.
  intros Hmode. unfold main. rewrite bind_unfold. cbn [modify].
  match goal with |- context [try_finally ?b disconnect ?w0] =>
    destruct (try_finally_disconnect b w0) as [-> ->]; set (w0' := w0)
  end.
  intros Hok. apply main_handlers_ok in Hok as [-> Hok].
  rewrite bind_unfold in Hok |- *.
  destruct (connect w0') as [[[|] | e] w1] eqn:Hconn; cbn [fst negb] in Hok |- *;
    try discriminate Hok.
  apply connect_true in Hconn as (Hport & Hsp & Ht1 & Hf1).
  rewrite Hmode in Hok |- *. rewrite bind_unfold in Hok |- *.
  destruct (upload_program_cases w1 (arg_binary_file a) (Some (arg_address a)))
    as (evs & Ht2 & Hcases).
  destruct (keeps_upload_program (arg_binary_file a) (Some (arg_address a)) w1)
    as (Hsp2 & _ & _).
  cbv zeta in Hcases.
  destruct (upload_program _ _ w1) as [[[|] | e] w2]; cbn [fst snd negb] in *;
    try discriminate Hok.
  destruct Hcases as [(_ & -> & Hsome) | [(Hr & _) | (Hr & _)]]; try discriminate Hr.
  rewrite Hf1 in Hsome.
  split; [exact Hport|]. split; [exact Hsome|].
  unfold ret. cbn [snd].
  rewrite (disconnect_connected w2 (mkSerial true (timeout w0')))
    by (rewrite ?Hsp2, ?Hsp; reflexivity).
  cbn [snd]. cbn -[protocol_events app]. rewrite Ht2, Ht1.
  assert (Hp : payload_of w1 (arg_binary_file a) = payload_of w (arg_binary_file a))
    by (unfold payload_of; now rewrite Hf1).
  rewrite Hp. cbn -[protocol_events app]. now rewrite <- !app_assoc.
Qed.

End MainStatus.

Lemma main_upload_success_witness :
  let a := mkArgs "prog.bin" "COM3" 115200 0x1000 false 5 in
  arg_test a = false /\
  fst (main a (bench [0xAA%Z])) = Ok tt /\
  is_Some (files (bench [0xAA%Z]) !! "prog.bin").
Proof.
  cbv zeta. split; [reflexivity|].
  assert (H : fst (main (mkArgs "prog.bin" "COM3" 115200 0x1000 false 5) (bench [0xAA%Z]))
              = Ok tt) by (vm_compute; reflexivity).
  split; [exact H|].
  exact (proj1 (proj2 (main_upload_success
                         (mkArgs "prog.bin" "COM3" 115200 0x1000 false 5)
                         (bench [0xAA%Z]) eq_refl H))).
Defined.

(** ** Without an open port *)

Section NotConnected.

(** X5. On a loader whose port was never opened, or was closed again,
    [send_bytes] and [receive_byte] raise "Serial port not connected"
    before touching the line: nothing is written, nothing is read, the
    world is unchanged. *)
Theorem io_requires_connection w data :
  ~ connected w ->
  send_bytes data w = (Raise (Exception "Serial port not connected"), w) /\
  receive_byte w = (Raise (Exception "Serial port not connected"), w).
Proof.
  intros Hn. unfold send_bytes, receive_byte.
  rewrite !bind_unfold, (require_connected_fails w Hn). split; reflexivity.
Qed.

Lemma io_requires_connection_witness :
  ~ connected (set_serial_port None (bench [])) /\
  fst (send_bytes [1%Z] (set_serial_port None (bench []))) =
    Raise (Exception "Serial port not connected").
Proof.
  assert (H : ~ connected (set_serial_port None (bench [])))
    by (intros (s & Hs & _); discriminate Hs).
  split; [exact H|].
  pose proof (io_requires_connection _ [1%Z] H) as [Hs _].
  rewrite Hs. reflexivity.
Defined.

(** X6. On a loader without an open port, [upload_program] and
    [test_connection] both answer [False] and leave the line untouched:
    not even the magic word is written. *)
Theorem no_connection_no_traffic w binary_file load_address :
  ~ connected w ->
  fst (upload_program binary_file load_address w) = Ok false /\
  trace (snd (upload_program binary_file load_address w)) = trace w /\
  fst (test_connection w) = Ok false /\
  trace (snd (test_connection w)) = trace w.
Proof.
  intros Hn. split; [|split].
  - unfold upload_program, try_except. rewrite bind_unfold.
    destruct (files w !! binary_file) as [img|] eqn:Hf.
    + rewrite (load_binary_file_some _ _ _ Hf), !print_bind.
      unfold send_magic_word.
      rewrite bind_unfold, print_bind, bind_unfold, struct_pack_I_ok
        by (unfold MAGIC_WORD; lia).
      unfold send_bytes. rewrite !bind_unfold, require_connected_fails by exact Hn.
      reflexivity.
    + destruct (load_binary_file_run binary_file w) as [(img & w1 & Hf' & _) | [_ ->]];
        [congruence | reflexivity].
  - unfold upload_program, try_except. rewrite bind_unfold.
    destruct (files w !! binary_file) as [img|] eqn:Hf.
    + rewrite (load_binary_file_some _ _ _ Hf), !print_bind.
      unfold send_magic_word.
      rewrite bind_unfold, print_bind, bind_unfold, struct_pack_I_ok
        by (unfold MAGIC_WORD; lia).
      unfold send_bytes. rewrite !bind_unfold, require_connected_fails by exact Hn.
      cbn. apply app_nil_r.
    + destruct (load_binary_file_run binary_file w) as [(img & w1 & Hf' & _) | [_ ->]];
        [congruence | reflexivity].
  - unfold test_connection, try_except. rewrite print_bind.
    unfold send_bytes. rewrite !bind_unfold, require_connected_fails by exact Hn.
    split; reflexivity.
Qed.

Lemma no_connection_no_traffic_witness :
  ~ connected (set_serial_port None (bench [0xAA%Z])) /\
  fst (upload_program "prog.bin" None (set_serial_port None (bench [0xAA%Z]))) = Ok false.
Proof.
  assert (H : ~ connected (set_serial_port None (bench [0xAA%Z])))
    by (intros (s & Hs & _); discriminate Hs).
  split; [exact H|].
  exact (proj1 (no_connection_no_traffic _ "prog.bin" None H)).
Defined.

(** X7. A missing binary file makes [upload_program] answer [False]
    whatever the state of the port; nothing reaches the line and the only
    effect is the error report on the console. *)
Theorem upload_missing_file w binary_file load_address :
  files w !! binary_file = None ->
  upload_program binary_file load_address w =
    (Ok false,
     set_stdout (stdout w ++ [MsgUploadError (FileNotFoundError binary_file)]) w).
Proof.
  intros Hf. unfold upload_program, try_except. rewrite bind_unfold.
  destruct (load_binary_file_run binary_file w) as [(img & w1 & Hf' & _) | [_ ->]];
    [congruence | reflexivity].
Qed.

Lemma upload_missing_file_witness :
  files (bench [0xAA%Z]) !! "nothing.bin" = None /\
  fst (upload_program "nothing.bin" None (bench [0xAA%Z])) = Ok false.
Proof.
  assert (H : files (bench [0xAA%Z]) !! "nothing.bin" = None) by reflexivity.
  split; [exact H|].
  rewrite (upload_missing_file _ "nothing.bin" None H). reflexivity.
Defined.

End NotConnected.

(** ** Values that do not fit a frame *)

Section OutOfRange.

Lemma struct_pack_I_error v w :
  ~ (0 <= v < 2 ^ 32)%Z -> struct_pack_I v w = (Raise StructError, w).
Proof.
  intros Hv. unfold struct_pack_I.
  destruct ((0 <=? v) && (v <? 2 ^ 32))%Z eqn:E; [|reflexivity].
  apply andb_true_iff in E as [H1 H2].
  apply Z.leb_le in H1. apply Z.ltb_lt in H2. lia.
Qed.

Lemma runs_send_program_size size :
  (Z.of_nat size < 2 ^ 32)%Z ->
  runs (send_program_size size) tt (frame_events (le_bytes (Z.of_nat size))).
Proof. intros Hs. apply runs_frame. lia. Qed.

(** X8. A load address outside the unsigned 32-bit range is noticed only
    when its frame is packed: on a healthy line [upload_program] has by
    then sent the magic word and the length frame, and it answers [False]
    without sending the address, any data, or reading a status. *)
Theorem upload_address_out_of_range w binary_file address img :
  healthy w ->
  files w !! binary_file = Some img ->
  (Z.of_nat (length (pad_to_word_boundary img)) < 2 ^ 32)%Z ->
  ~ (0 <= address < 2 ^ 32)%Z ->
  let r := upload_program binary_file (Some address) w in
  fst r = Ok false /\
  trace (snd r) = trace w ++
    frame_events (le_bytes MAGIC_WORD) ++
    frame_events (le_bytes (Z.of_nat (length (pad_to_word_boundary img)))) /\
  last (stdout (snd r)) = Some (MsgUploadError StructError).
Proof.
  intros Hw Hfile Hlen Haddr. cbv zeta.
  unfold upload_program, try_except.
  rewrite bind_unfold, (load_binary_file_some _ _ _ Hfile), !print_bind.
  match goal with |- context [_ (set_stdout ?o ?w0)] => set (w2 := set_stdout o w0) end.
  assert (Hw2 : healthy w2) by exact Hw.
  assert (Ht2 : trace w2 = trace w ++ []) by reflexivity.
  rewrite app_nil_r in Ht2. clearbody w2.
  rewrite bind_unfold. destruct (runs_send_magic_word w2 Hw2) as [m1 ->].
  rewrite bind_unfold.
  destruct (runs_send_program_size _ Hlen _
              (healthy_advance (frame_events (le_bytes MAGIC_WORD)) m1 _ Hw2)) as [m2 ->].
  rewrite advance_advance, bind_unfold.
  unfold send_load_address.
  rewrite print_bind, bind_unfold, struct_pack_I_error by exact Haddr.
  unfold advance. cbn -[frame_events le_bytes app last]. rewrite Ht2.
  split; [reflexivity|]. split; [reflexivity|]. apply last_snoc.
Qed.

Lemma upload_address_out_of_range_witness :
  healthy (bench [0xAA%Z]) /\
  fst (upload_program "prog.bin" (Some (-1)%Z) (bench [0xAA%Z])) = Ok false.
Proof.
  split; [apply bench_healthy|].
  exact (proj1 (upload_address_out_of_range (bench [0xAA%Z]) "prog.bin" (-1) image10
                  (bench_healthy _) eq_refl ltac:(vm_compute; reflexivity) ltac:(lia))).
Defined.

End OutOfRange.

(** ** The connection test and the port timeout *)

Section TestTimeout.

(** X9. On a healthy line the connection test leaves the port open and
    with the loader's configured timeout (it sets 1 second for its own read
    and puts [self.timeout] back), and it has consumed exactly the bytes it
    received. *)
Theorem test_connection_restores_timeout w :
  healthy w ->
  let r := test_connection w in
  let reply := take 100 (drop (rx_pos w) (device w (sent (trace w) ++ test_data))) in
  serial_port (snd r) = Some (mkSerial true (timeout w)) /\
  timeout (snd r) = timeout w /\
  rx_pos (snd r) = rx_pos w + length reply /\
  files (snd r) = files w.
Proof.
  intros ((s & Hs & Ho) & Hf & Hi). cbv zeta.
  unfold test_connection, send_bytes, require_connected, serial_write, serial_flush, sleep,
    set_port_timeout, serial_read, serial_call, try_except, blocking, bind, get, print,
    modify, emit, raise, ret, handle; cbn.
  repeat (first [rewrite Hs | rewrite Ho | rewrite Hi | rewrite Hf]; cbn).
  unfold sent, writes. rewrite !omap_app, !concat_app. cbn. rewrite !app_nil_r.
  destruct (length (take 100 _)); cbn; repeat split; reflexivity.
Qed.

Lemma test_connection_restores_timeout_witness :
  healthy (bench [0x55%Z]) /\
  serial_port (snd (test_connection (bench [0x55%Z]))) = Some (mkSerial true 5).
Proof.
  split; [apply bench_healthy|].
  exact (proj1 (test_connection_restores_timeout (bench [0x55%Z]) (bench_healthy _))).
Defined.

(** X10. When the read of the connection test itself fails, the test
    answers [False] and the port keeps the 1-second timeout the test had
    set: the line that restores [self.timeout] is skipped by the exception. *)
Theorem test_connection_failed_read_keeps_test_timeout w s rest :
  serial_port w = Some s ->
  is_open s = true ->
  interrupts w = [] ->
  link_faults w = false :: false :: true :: rest ->
  let r := test_connection w in
  fst r = Ok false /\
  serial_port (snd r) = Some (mkSerial true 1) /\
  trace (snd r) = trace w ++ [EvWrite test_data; EvFlush; EvSleep 500] /\
  last (stdout (snd r)) = Some (MsgConnectionTestFailed SerialException).
Proof.
  intros Hs Ho Hi Hf. cbv zeta.
  unfold test_connection, send_bytes, require_connected, serial_write, serial_flush, sleep,
    set_port_timeout, serial_read, serial_call, try_except, blocking, bind, get, print,
    modify, emit, raise, ret, handle; cbn.
  repeat (first [rewrite Hs | rewrite Ho | rewrite Hi | rewrite Hf]; cbn).
  split; [reflexivity|]. split; [reflexivity|].
  split; [now rewrite <- !app_assoc | apply last_snoc].
Qed.

Lemma test_connection_failed_read_keeps_test_timeout_witness :
  let w := set_link_faults [false; false; true] (bench []) in
  link_faults w = [false; false; true] /\
  serial_port (snd (test_connection w)) = Some (mkSerial true 1).
Proof.
  cbv zeta. split; [reflexivity|].
  exact (proj1 (proj2 (test_connection_failed_read_keeps_test_timeout
                         (set_link_faults [false; false; true] (bench []))
                         (mkSerial true 5) [] eq_refl eq_refl eq_refl eq_refl))).
Defined.

End TestTimeout.

(** ** Opening the port *)

Section Connect.

(** X11. [connect] lets the constructor's [ValueError] for a negative
    baud rate or timeout escape, with nothing opened.  With valid settings,
    unless Ctrl-C arrives during the open, it answers [True] exactly when
    the configured port can be opened.  It then holds an open port with the
    loader's timeout and has recorded one open of that port at the
    configured baud rate; otherwise it answers [False], reports the connect
    error, and the loader's port handle is unchanged. *)
Theorem connect_opens_iff_available w :
  interrupts w = [] ->
  let r := connect w in
  ((baud_rate w < 0 \/ timeout w < 0)%Z ->
     (exists msg, fst r = Raise (ValueError msg)) /\ snd r = w) /\
  ((0 <= baud_rate w)%Z -> (0 <= timeout w)%Z ->
     (fst r = Ok true <-> port w ∈ ports w) /\
     (fst r = Ok false <-> port w ∉ ports w) /\
     (port w ∈ ports w ->
        serial_port (snd r) = Some (mkSerial true (timeout w)) /\
        trace (snd r) = trace w ++ [EvOpen (port w) (baud_rate w)] /\
        last (stdout (snd r)) = Some (MsgConnected (port w) (baud_rate w))) /\
     (port w ∉ ports w ->
        serial_port (snd r) = serial_port w /\
        trace (snd r) = trace w /\
        last (stdout (snd r)) = Some (MsgConnectError (port w) SerialException))).
Proof.
  intros Hi. cbv zeta.
  unfold connect, serial_Serial, try_except, blocking, bind, get, print, modify, emit,
    raise, ret, handle. cbn.
  destruct (Z.ltb_spec (baud_rate w) 0) as [Hb | Hb]; cbn.
  { split; [intros _; split; [eexists|]; reflexivity | intros; lia]. }
  destruct (Z.ltb_spec (timeout w) 0) as [Ht | Ht]; cbn.
  { split; [intros _; split; [eexists|]; reflexivity | intros; lia]. }
  split; [intros [? | ?]; lia|]. intros _ _.
  rewrite Hi. cbn.
  destruct (decide (port w ∈ ports w)) as [Hin | Hout]; cbn.
  - split; [tauto|]. split; [split; [discriminate | contradiction]|].
    split; [|contradiction]. intros _.
    split; [reflexivity|]. split; [reflexivity | apply last_snoc].
  - split; [split; [discriminate | contradiction]|]. split; [tauto|].
    split; [contradiction|]. intros _.
    split; [reflexivity|]. split; [reflexivity | apply last_snoc].
Qed.

Lemma connect_opens_iff_available_witness :
  interrupts (bench []) = [] /\ fst (connect (bench [])) = Ok true.
Proof.
  split; [reflexivity|].
  apply (proj1 (proj2 (connect_opens_iff_available (bench []) eq_refl)
                  ltac:(vm_compute; discriminate) ltac:(vm_compute; discriminate))).
  vm_compute. reflexivity.
Defined.

End Connect.

(** ** Progress reporting *)

Section Progress.

Lemma send_bytes_healthy w data :
  healthy w -> send_bytes data w = (Ok tt, advance [EvWrite data; EvFlush] [] w).
Proof.
  intros ((s & Hs & Ho) & Hf & Hi).
  unfold send_bytes, require_connected, serial_write, serial_flush, serial_call, blocking,
    bind, get, modify, emit, raise, ret, advance; cbn.
  repeat (first [rewrite Hs | rewrite Ho | rewrite Hi | rewrite Hf]; cbn).
  destruct w; cbn in *. unfold modify, set_trace, set_stdout; cbn.
  rewrite ?app_nil_r, <- ?app_assoc. reflexivity.
Qed.

Lemma sleep_healthy w ms : healthy w -> sleep ms w = (Ok tt, advance [EvSleep ms] [] w).
Proof.
  intros (_ & _ & Hi). unfold sleep, blocking, bind, modify, emit, advance; cbn.
  rewrite Hi. destruct w; cbn in *. unfold modify, set_trace, set_stdout; cbn.
  rewrite ?app_nil_r. reflexivity.
Qed.

Lemma chunk_loop_healthy data xs w :
  healthy w ->
  (forall i, In i xs -> i < length data) ->
  for_each xs (fun i =>
      let chunk := slice data i (i + chunk_size) in
      send_bytes chunk ;;;
      progress <- py_truediv (i + length chunk) (length data) ;;
      print (MsgProgress progress) ;;;
      sleep 10) w =
  (Ok tt, advance (flat_map (fun i => chunk_events (slice data i (i + chunk_size))) xs)
                  (map (fun i => MsgProgress (progress_after data i)) xs) w).
Proof.
  revert w. induction xs as [|i xs IH]; intros w Hw Hlt.
  - cbn. unfold ret. now rewrite advance_nil.
  - cbn [for_each flat_map map]. rewrite bind_unfold.
    assert (Hi : i < length data) by (apply Hlt; now left).
    assert (Hstep :
      (let chunk := slice data i (i + chunk_size) in
       send_bytes chunk ;;;
       progress <- py_truediv (i + length chunk) (length data) ;;
       print (MsgProgress progress) ;;;
       sleep 10) w =
      (Ok tt, advance (chunk_events (slice data i (i + chunk_size)))
                      [MsgProgress (progress_after data i)] w)).
    { cbv zeta. rewrite bind_unfold, (send_bytes_healthy w _ Hw), bind_unfold.
      unfold progress_after.
      destruct (length data) as [|n] eqn:Hn; [lia|].
      cbn [py_truediv]. unfold ret at 1. rewrite print_bind, sleep_healthy by exact Hw.
      unfold advance, chunk_events. destruct w; cbn.
      now rewrite !app_nil_r, <- !app_assoc. }
    cbv beta zeta in Hstep |- *. rewrite Hstep.
    rewrite IH; [|exact Hw | intros j Hj; apply Hlt; now right].
    now rewrite advance_advance.
Qed.

Lemma progress_after_eq data k :
  64 * k < length data ->
  progress_after data (64 * k) = (min (64 * (k + 1)) (length data), length data).
Proof.
  intros Hk. unfold progress_after, chunk_size. rewrite slice_length.
  f_equal. lia.
Qed.

Lemma progress_values_lookup data k p :
  progress_values data !! k = Some p ->
  64 * k < length data /\ p = progress_after data (64 * k).
Proof.
  unfold progress_values. rewrite list_lookup_fmap.
  destruct (py_range 0 (length data) chunk_size !! k) as [i|] eqn:Hi; [|discriminate].
  cbn. intros Hp. inversion Hp; subst.
  apply py_range_lookup in Hi as [-> Hlt]. unfold chunk_size in *.
  replace (0 + k * 64) with (64 * k) in * by lia. auto.
Qed.

(** X12. On a healthy line [send_program_data] prints one progress line
    per chunk and nothing else between its header line and the final
    newline.  Each progress line is computed from the bytes sent so far over
    the total (the code prints that quotient times 100 with one decimal; the
    message keeps the two operands of the division).  After chunk [k] the
    bytes sent are [min (64 * (k + 1)) total]: positive, at most the total,
    strictly more than after the chunk before, and equal to the total on the
    last line. *)
Theorem send_program_data_progress w data :
  healthy w ->
  let r := send_program_data data w in
  stdout (snd r) =
    stdout w ++ [MsgSendingData (length data)] ++
    map MsgProgress (progress_values data) ++ [MsgNewline] /\
  length (progress_values data) = length (chunks_of data) /\
  (forall k p, progress_values data !! k = Some p ->
     p = (min (64 * (k + 1)) (length data), length data) /\ 0 < fst p <= snd p) /\
  (forall k p q, progress_values data !! k = Some p ->
                 progress_values data !! S k = Some q ->
                 fst p < fst q /\ snd p = snd q) /\
  (forall p, last (progress_values data) = Some p -> fst p = snd p).
Proof.
  intros Hw. cbv zeta. split; [|split; [|split; [|split]]].
  - unfold send_program_data. rewrite print_bind, bind_unfold.
    rewrite chunk_loop_healthy; [|exact Hw | intros i Hi; now apply py_range_bound in Hi].
    unfold print, modify, advance, progress_values. destruct w; cbn.
    rewrite map_map. now rewrite <- !app_assoc.
  - unfold progress_values, chunks_of. now rewrite !length_map.
  - intros k p Hp. apply progress_values_lookup in Hp as [Hk ->].
    rewrite (progress_after_eq data k Hk). cbn [fst snd]. split; [reflexivity | lia].
  - intros k p q Hp Hq.
    apply progress_values_lookup in Hp as [Hk ->].
    apply progress_values_lookup in Hq as [Hk' ->].
    rewrite (progress_after_eq data k Hk), (progress_after_eq data (S k) Hk').
    cbn [fst snd]. split; [lia | reflexivity].
  - intros p Hp. rewrite last_lookup in Hp.
    pose proof (progress_values_lookup _ _ _ Hp) as [Hk ->].
    rewrite (progress_after_eq data _ Hk). cbn [fst snd].
    assert (Hn : length (progress_values data) = (length data + 63) / 64).
    { unfold progress_values. rewrite length_map. unfold chunk_size.
      rewrite py_range_length by lia. now rewrite Nat.sub_0_r. }
    rewrite Hn in *.
    pose proof (Nat.div_mod_eq (length data + 63) 64) as E.
    pose proof (Nat.mod_upper_bound (length data + 63) 64 ltac:(lia)) as Hr.
    lia.
Qed.

Lemma send_program_data_progress_witness :
  healthy (bench []) /\
  stdout (snd (send_program_data (replicate 130 7%Z) (bench []))) =
    [MsgSendingData 130; MsgProgress (64, 130); MsgProgress (128, 130);
     MsgProgress (130, 130); MsgNewline].
Proof.
  split; [apply bench_healthy|].
  pose proof (send_program_data_progress (bench []) (replicate 130 7%Z) (bench_healthy _))
    as (Hout & _).
  cbv zeta in Hout. rewrite Hout. vm_compute. reflexivity.
Defined.

End Progress.

(** * Properties of the memory-file converter *)

Section Words.

Import Bin2Verilog.

Lemma collect_map {A B} (f : A -> result B) (g : A -> B) (xs : list A) :
  (forall x, In x xs -> f x = Ok (g x)) -> collect f xs = Ok (map g xs).
Proof.
  induction xs as [|x xs IH]; intros Hall; cbn [collect map]; [reflexivity|].
  rewrite (Hall x) by now left.
  rewrite IH by (intros y Hy; apply Hall; now right). reflexivity.
Qed.

Lemma concat_slices_step data step start :
  0 < step ->
  concat (map (fun i => slice data i (i + step)) (py_range start (length data) step))
  = drop start data.
Proof.
  intros Hstep. remember (length data) as stop eqn:Hstop.
  funelim (py_range start stop step); simpl.
  - match goal with IH : context [concat _ = _] |- _ => rewrite IH by auto end.
    unfold slice. replace (start + step - start) with step by lia.
    rewrite <- (drop_drop data step start). apply take_drop.
  - symmetry. apply drop_ge. lia.
Qed.

Lemma word_slice_length data k :
  length data mod 4 = 0 -> 4 * k < length data ->
  length (slice data (4 * k) (4 * k + 4)) = 4.
Proof.
  intros Hal Hk. rewrite slice_length.
  pose proof (Nat.div_mod_eq (length data) 4) as E. rewrite Hal in E. lia.
Qed.

Lemma py_range_In start stop step i :
  In i (py_range start stop step) -> exists k, i = start + k * step /\ i < stop.
Proof.
  intros Hi. apply list_elem_of_In, list_elem_of_lookup in Hi as [k Hk].
  exists k. now apply py_range_lookup in Hk.
Qed.

(** The words of a word-aligned byte string. *)
Lemma unpack_words_aligned data :
  length data mod 4 = 0 ->
  unpack_words data =
    Ok (map (fun i => le_value (slice data i (i + 4))) (py_range 0 (length data) 4)).
Proof.
  intros Hal. unfold unpack_words. apply collect_map.
  intros i Hi. apply py_range_In in Hi as (k & -> & Hlt).
  unfold struct_unpack_I.
  replace (0 + k * 4) with (4 * k) in * by lia.
  rewrite (word_slice_length data k Hal Hlt).
  destruct (decide (4 = 4)); [reflexivity | contradiction].
Qed.

Lemma padded_aligned data : length (pad_to_word_boundary data) mod 4 = 0.
Proof. rewrite pad_to_word_boundary_length. apply pad_gap_total. Qed.

Lemma word_count_padded n : word_count n * 4 = n + pad_gap n.
Proof.
  unfold word_count.
  pose proof (pad_gap_total n) as Ht. pose proof (pad_gap_bound n) as Hb.
  pose proof (Nat.div_mod_eq (n + pad_gap n) 4) as E. rewrite Ht in E.
  pose proof (Nat.div_mod_eq (n + 3) 4) as E3.
  pose proof (Nat.mod_upper_bound (n + 3) 4 ltac:(lia)) as H3.
  lia.
Qed.

(** X13. The conversion loop never raises [struct.error]: after padding,
    every 4-byte slice is complete.  It yields exactly the number of words
    that [analyze_binary] announces, [(size + 3) // 4], and the reported
    memory usage, four times that, is the length of the padded image. *)
Theorem unpack_words_padded (data : list Z) :
  exists words,
    unpack_words (pad_to_word_boundary data) = Ok words /\
    length words = word_count (length data) /\
    word_count (length data) * 4 = length (pad_to_word_boundary data).
Proof.
  eexists. split; [apply unpack_words_aligned, padded_aligned|].
  split.
  - rewrite length_map, py_range_length by lia. rewrite Nat.sub_0_r.
    rewrite pad_to_word_boundary_length. unfold word_count.
    pose proof (word_count_padded (length data)) as Hw. unfold word_count in Hw.
    pose proof (pad_gap_bound (length data)) as Hb.
    replace (length data + pad_gap (length data) + (4 - 1))
      with (3 + (length data + 3) / 4 * 4) by lia.
    rewrite Nat.div_add by lia. reflexivity.
  - rewrite pad_to_word_boundary_length. apply word_count_padded.
Qed.

Lemma le_bytes_le_value a b c d :
  (0 <= a < 256)%Z -> (0 <= b < 256)%Z -> (0 <= c < 256)%Z -> (0 <= d < 256)%Z ->
  le_bytes (le_value [a; b; c; d]) = [a; b; c; d] /\
  (0 <= le_value [a; b; c; d] < 2 ^ 32)%Z.
Proof.
  intros Ha Hb Hc Hd. rewrite le_bytes_eq. cbn [le_value].
  change (2 ^ 8)%Z with 256%Z. change (2 ^ 16)%Z with 65536%Z.
  change (2 ^ 24)%Z with 16777216%Z. change (2 ^ 32)%Z with 4294967296%Z.
  split; [|lia].
  repeat f_equal; Z.div_mod_to_equations; lia.
Qed.

Lemma Forall_slice (P : Z -> Prop) data i j : Forall P data -> Forall P (slice data i j).
Proof. intros H. unfold slice. now apply Forall_take, Forall_drop. Qed.

(** X14. For a binary of well-formed bytes the words lose nothing: each
    word is an unsigned 32-bit value, and writing the words back as
    little-endian bytes gives the image followed by its zero padding. *)
Theorem unpack_words_round_trip (data : list Z) (words : list Z) :
  Forall (fun b => 0 <= b < 256)%Z data ->
  unpack_words (pad_to_word_boundary data) = Ok words ->
  concat (map le_bytes words) = data ++ replicate (pad_gap (length data)) 0%Z /\
  Forall (fun w => 0 <= w < 2 ^ 32)%Z words.
Proof.
  intros Hbytes Hwords.
  assert (Hpad : Forall (fun b => 0 <= b < 256)%Z (pad_to_word_boundary data)).
  { rewrite pad_to_word_boundary_eq. apply Forall_app. split; [exact Hbytes|].
    apply Forall_replicate. lia. }
  rewrite <- pad_to_word_boundary_eq.
  set (padded := pad_to_word_boundary data) in *.
  assert (Hal : length padded mod 4 = 0) by apply padded_aligned.
  rewrite (unpack_words_aligned padded Hal) in Hwords. inversion Hwords; subst words.
  assert (Hslice : forall i, In i (py_range 0 (length padded) 4) ->
            le_bytes (le_value (slice padded i (i + 4))) = slice padded i (i + 4) /\
            (0 <= le_value (slice padded i (i + 4)) < 2 ^ 32)%Z).
  { intros i Hi. apply py_range_In in Hi as (k & -> & Hlt).
    replace (0 + k * 4) with (4 * k) in * by lia.
    pose proof (word_slice_length padded k Hal Hlt) as Hlen.
    pose proof (Forall_slice _ padded (4 * k) (4 * k + 4) Hpad) as Hr.
    destruct (slice padded (4 * k) (4 * k + 4)) as [|a [|b [|c [|d [|e rest]]]]];
      try discriminate Hlen.
    inversion Hr as [|? ? Ha Hr1]; subst. inversion Hr1 as [|? ? Hb Hr2]; subst.
    inversion Hr2 as [|? ? Hc Hr3]; subst. inversion Hr3 as [|? ? Hd _]; subst.
    now apply le_bytes_le_value. }
  split.
  - rewrite map_map.
    rewrite (map_ext_in _ (fun i => slice padded i (i + 4)))
      by (intros i Hi; apply Hslice, Hi).
    rewrite concat_slices_step by lia. apply drop_0.
  - apply Forall_forall. intros w Hw.
    apply list_elem_of_In, in_map_iff in Hw as (i & <- & Hi).
    apply Hslice, Hi.
Qed.

Lemma unpack_words_round_trip_witness :
  Forall (fun b => 0 <= b < 256)%Z image10 /\
  concat (map le_bytes [0x04030201; 0x08070605; 0x00000A09]%Z) = image10 ++ [0; 0]%Z.
Proof.
  assert (H : Forall (fun b => 0 <= b < 256)%Z image10)
    by (repeat constructor; lia).
  split; [exact H|].
  exact (proj1 (unpack_words_round_trip image10 [0x04030201; 0x08070605; 0x00000A09]%Z
                  H ltac:(reflexivity))).
Defined.

End Words.

Section HexText.

Import Bin2Verilog.

Lemma chars_append s1 s2 :
  String.list_ascii_of_string (s1 +:+ s2) =
  String.list_ascii_of_string s1 ++ String.list_ascii_of_string s2.
Proof.
  induction s1 as [|c s1 IH]; [reflexivity|].
  change (String c s1 +:+ s2) with (String c (s1 +:+ s2)).
  cbn [String.list_ascii_of_string]. rewrite IH. reflexivity.
Qed.

Lemma string_length_chars s : String.length s = length (String.list_ascii_of_string s).
Proof. induction s as [|c s IH]; cbn; [reflexivity | now rewrite IH]. Qed.

Lemma hex_digits_length fuel k v :
  (0 <= v < 16 ^ Z.of_nat k)%Z -> 1 <= k -> length (hex_digits fuel v) <= k.
Proof.
  revert k v. induction fuel as [|fuel IH]; intros k v Hv Hk; cbn [hex_digits].
  - cbn. lia.
  - destruct (Z.ltb_spec v 16) as [Hsmall | Hbig]; [cbn; lia|].
    rewrite length_app. cbn [length].
    destruct k as [|[|k]]; [lia | cbn in Hv; lia |].
    assert (Hdiv : (0 <= v / 16 < 16 ^ Z.of_nat (S k))%Z).
    { replace (Z.of_nat (S (S k))) with (Z.succ (Z.of_nat (S k))) in Hv by lia.
      rewrite Z.pow_succ_r in Hv by lia.
      split; [apply Z.div_pos; lia | apply Z.div_lt_upper_bound; lia]. }
    specialize (IH (S k) (v / 16)%Z Hdiv ltac:(lia)). lia.
Qed.

Lemma hex_digit_round_trip d : (0 <= d < 16)%Z -> hex_digit_value (hex_digit d) = d.
Proof.
  intros Hd.
  assert (H : (d = 0 \/ d = 1 \/ d = 2 \/ d = 3 \/ d = 4 \/ d = 5 \/ d = 6 \/ d = 7 \/
               d = 8 \/ d = 9 \/ d = 10 \/ d = 11 \/ d = 12 \/ d = 13 \/ d = 14 \/
               d = 15)%Z) by lia.
  repeat (destruct H as [-> | H]; [reflexivity|]). subst d. reflexivity.
Qed.

Lemma hex_digits_value fuel v :
  (0 <= v < 16 ^ Z.of_nat fuel)%Z -> foldl hex_step 0%Z (hex_digits fuel v) = v.
Proof.
  revert v. induction fuel as [|fuel IH]; intros v Hv.
  - cbn in Hv. cbn. lia.
  - cbn [hex_digits]. destruct (Z.ltb_spec v 16) as [Hsmall | Hbig].
    + cbn [foldl]. unfold hex_step. rewrite hex_digit_round_trip by lia. lia.
    + rewrite foldl_app. cbn [foldl]. unfold hex_step at 1.
      replace (Z.of_nat (S fuel)) with (Z.succ (Z.of_nat fuel)) in Hv by lia.
      rewrite Z.pow_succ_r in Hv by lia.
      rewrite IH by (split; [apply Z.div_pos; lia | apply Z.div_lt_upper_bound; lia]).
      rewrite hex_digit_round_trip by (apply Z.mod_pos_bound; lia).
      symmetry. apply Z.div_mod. lia.
Qed.

Lemma hex_zeros_value n acc :
  foldl hex_step acc (replicate n char_0) = (acc * 16 ^ Z.of_nat n)%Z.
Proof.
  revert acc. induction n as [|n IH]; intros acc.
  - cbn. lia.
  - cbn [replicate foldl]. rewrite IH.
    replace (Z.of_nat (S n)) with (Z.succ (Z.of_nat n)) by lia.
    rewrite Z.pow_succ_r by lia. unfold hex_step.
    change (hex_digit_value char_0) with 0%Z. ring.
Qed.

Lemma fuel_enough v : (0 <= v)%Z -> (v < 16 ^ Z.of_nat (S (Z.to_nat (Z.log2 v))))%Z.
Proof.
  intros Hv.
  destruct (Z.eq_dec v 0%Z) as [-> | Hne]; [reflexivity|].
  pose proof (Z.log2_nonneg v) as Hl.
  pose proof (Z.log2_spec v ltac:(lia)) as [_ Hup].
  replace (Z.of_nat (S (Z.to_nat (Z.log2 v)))) with (Z.succ (Z.log2 v)) by lia.
  eapply Z.lt_le_trans; [exact Hup|].
  apply Z.pow_le_mono_l. lia.
Qed.

Lemma hex_digit_in d : In (hex_digit d) (String.list_ascii_of_string "0123456789abcdef").
Proof.
  unfold hex_digit.
  destruct (le_lt_dec 16 (Z.to_nat d)) as [Hout | Hin].
  - rewrite nth_overflow by exact Hout. left. reflexivity.
  - apply nth_In. exact Hin.
Qed.

Lemma hex_digits_in fuel v :
  Forall (fun c => In c (String.list_ascii_of_string "0123456789abcdef"))
         (hex_digits fuel v).
Proof.
  revert v. induction fuel as [|fuel IH]; intros v; cbn [hex_digits].
  - constructor.
  - destruct (v <? 16)%Z.
    + constructor; [apply hex_digit_in | constructor].
    + apply Forall_app. split; [apply IH|].
      constructor; [apply hex_digit_in | constructor].
Qed.

(** X15. Every unsigned 32-bit word is written as exactly eight
    characters, each of them one of the sixteen lower-case hexadecimal
    digits, and those digits read back as the word: the [32'h........]
    literals of the memory file are well-formed and faithful. *)
Theorem format_08x_word (v : Z) :
  (0 <= v < 2 ^ 32)%Z ->
  String.length (format_08x v) = 8 /\
  Forall (fun c => In c (String.list_ascii_of_string "0123456789abcdef"))
         (String.list_ascii_of_string (format_08x v)) /\
  hex_value (format_08x v) = v.
Proof.
  intros Hv. unfold format_08x, format_x, hex_value. cbv zeta.
  set (fuel := S (Z.to_nat (Z.log2 v))).
  assert (Hlen : length (hex_digits fuel v) <= 8).
  { apply hex_digits_length; [|lia]. change (16 ^ Z.of_nat 8)%Z with (2 ^ 32)%Z. exact Hv. }
  rewrite !string_length_chars, !chars_append, !String.list_ascii_of_string_of_list_ascii.
  rewrite length_app, length_replicate. split; [lia|]. split.
  - apply Forall_app. split; [|apply hex_digits_in].
    generalize (8 - length (hex_digits fuel v)). intros n.
    induction n as [|n IH]; cbn [replicate]; constructor; [left; reflexivity | exact IH].
  - rewrite foldl_app, hex_zeros_value. cbn [Z.mul].
    apply hex_digits_value. split; [lia | apply fuel_enough; lia].
Qed.

Lemma format_08x_word_witness :
  (0 <= 0xBEEF < 2 ^ 32)%Z /\
  format_08x 0xBEEF = "0000beef" /\ hex_value (format_08x 0xBEEF) = 0xBEEF%Z.
Proof.
  split; [lia|]. split; [reflexivity|].
  exact (proj2 (proj2 (format_08x_word 0xBEEF ltac:(lia)))).
Defined.

End HexText.

Section Converter.

Import Bin2Verilog.

(** X16. The instruction memory file has one [memory[...]] line per word,
    after nine header writes and before two closing ones; the line of the
    [i]-th word assigns word address 1024 + i.  That base is the loader's
    default load address 0x1000 counted in words. *)
Theorem imem_writes_lines (bin_file : string) (words : list Z) :
  length (imem_writes bin_file words) = 11 + length words /\
  (forall i w, words !! i = Some w ->
     imem_writes bin_file words !! (9 + i) = Some (memory_line (1024 + i) w)) /\
  (Z.of_nat base_addr * 4 = DEFAULT_LOAD_ADDR)%Z.
Proof.
  unfold imem_writes. split; [|split; [|reflexivity]].
  - rewrite !length_app, length_imap. cbn [length]. lia.
  - intros i w Hw.
    rewrite lookup_app_r by (cbn [length]; lia). cbn [length].
    replace (9 + i - 9) with i by lia.
    rewrite lookup_app_l by (rewrite length_imap; now apply lookup_lt_Some in Hw).
    rewrite list_lookup_imap, Hw. reflexivity.
Qed.








End Converter.

(** ** Test mode *)

Section TestMode.





End TestMode.
